(** * A shallow embedding of the GraphQL users/posts API

    The development follows the Python sources:
    - [models.py]    : the two tables, [User] and [Post];
    - [schemas.py]   : the wire types and the input types;
    - [main.py]      : the resolvers mounted on the schema ([Query],
                       [Mutation], [Subscription]);
    - [resolvers.py] : the stand-alone resolver classes ([UserResolver],
                       [UserMutation], [PostResolver], [PostMutation]).

    The relational store is an explicit value threaded through every
    resolver: a resolver is a function from the store before the call to
    an outcome (a value or a raised exception) and the store after it. *)

From Stdlib Require Import ZArith String Ascii List Bool Lia.
From stdpp Require Import base tactics option list.

Import ListNotations.
Local Open Scope string_scope.
Local Open Scope list_scope.
Local Open Scope Z_scope.

(** ** Timestamps: [datetime] and [datetime.isoformat] *)

Record datetime := mk_datetime {
  year : nat; month : nat; day : nat;
  hour : nat; minute : nat; second : nat;
  microsecond : nat
}.

Definition digit (n : nat) : ascii :=
  ascii_of_nat (48 + Nat.modulo n 10).

(** [zero_pad w n] is Python's ["%0wd" % n] for [n < 10^w]. *)
Fixpoint zero_pad (w : nat) (n : nat) : string :=
  match w with
  | O => EmptyString
  | S w' => String.append (zero_pad w' (Nat.div n 10))
                          (String (digit n) EmptyString)
  end.

(** [datetime.isoformat()] of a naive datetime:
    [YYYY-MM-DDTHH:MM:SS], followed by [.ffffff] when the microsecond
    field is not zero. *)
Definition isoformat (d : datetime) : string :=
  (zero_pad 4 (year d) ++ "-" ++ zero_pad 2 (month d) ++ "-" ++
   zero_pad 2 (day d) ++ "T" ++ zero_pad 2 (hour d) ++ ":" ++
   zero_pad 2 (minute d) ++ ":" ++ zero_pad 2 (second d) ++
   (if Nat.eqb (microsecond d) 0 then ""
    else "." ++ zero_pad 6 (microsecond d)))%string.

(** ** models.py *)

Module User.
Record t := mk {
    id : Z;                 (* primary key *)
    name : string;
    email : string;         (* Field(unique=True, index=True) *)
    age : option Z;
    created_at : datetime   (* default_factory=datetime.utcnow *)
  }.
End User.

Module Post.
Record t := mk {
    id : Z;                 (* primary key *)
    title : string;
    content : string;
    author_id : Z;          (* Field(foreign_key="user.id"), not Optional *)
    created_at : datetime
  }.
End Post.

(** ** schemas.py (and the same types at the top of main.py) *)

Module UserType.
Record t := mk {
    id : Z; name : string; email : string; age : option Z;
    created_at : string
  }.
End UserType.

Module PostType.
Record t := mk {
    id : Z; title : string; content : string; created_at : string;
    author : UserType.t
  }.
End PostType.

Module UserInput.
Record t := mk { name : string; email : string; age : option Z }.
End UserInput.

Module UserUpdateInput.
Record t := mk {
    name : option string; email : option string; age : option Z
  }.
End UserUpdateInput.

Module PostInput.
Record t := mk { title : string; content : string; author_id : Z }.
End PostInput.

(** ** The store

    Each table is the list of its rows in rowid order.  The primary key
    of both tables is an integer primary key, so the rowid is the [id]
    column and a [select] without [order_by] walks the table by
    ascending [id]. *)

Record store := mk_store {
  user_table : list User.t;
  post_table : list Post.t
}.

(** ** Exceptions

    The resolvers raise plain [Exception]s that differ by their message;
    the store raises [IntegrityError] when a commit violates a constraint
    declared in models.py; reading an attribute of [None] raises
    [AttributeError]. *)

Inductive exn :=
| Exception (msg : string)
| IntegrityError (detail : string)
| AttributeError (detail : string).

(** The names the specification gives to the resolvers' exceptions. *)
Inductive error_kind := NotFound | DuplicateEmail | AuthorNotFound.

Definition kind_of (e : exn) : option error_kind :=
  match e with
  | Exception msg =>
      if String.eqb msg "User not found" then Some NotFound
      else if String.eqb msg "Post not found" then Some NotFound
      else if String.eqb msg "User with this email already exists"
           then Some DuplicateEmail
      else if String.eqb msg "Author not found" then Some AuthorNotFound
      else None
  | IntegrityError _ => None
  | AttributeError _ => None
  end.

Inductive result (A : Type) :=
| Ok (a : A)
| Raise (e : exn).
Arguments Ok {A} a.
Arguments Raise {A} e.

(** [fails_with r k]: the call raised an exception of kind [k]. *)
Definition fails_with {A} (r : result A) (k : error_kind) : Prop :=
  exists e, r = Raise e /\ kind_of e = Some k.

(** ** Session computations

    [Session A] is the body of a [with Session(engine) as session:]
    block: it reads and writes the store and either returns a value or
    raises.  A raised exception leaves the block at once; what was
    committed before stays committed. *)

Definition Session (A : Type) : Type := store -> result A * store.

Definition ret {A} (a : A) : Session A := fun s => (Ok a, s).

Definition raise {A} (e : exn) : Session A := fun s => (Raise e, s).

Definition bind {A B} (m : Session A) (k : A -> Session B) : Session B :=
  fun s =>
    match m s with
    | (Ok a, s') => k a s'
    | (Raise e, s') => (Raise e, s')
    end.

Declare Scope session_scope.
Delimit Scope session_scope with session.
Notation "'do' x <- m ; k" := (bind m (fun x => k))
  (at level 10, x name, m at level 100, k at level 200) : session_scope.
Local Open Scope session_scope.

(** A [for] loop that appends one value per element to a result list. *)
Fixpoint for_each {A B} (f : A -> Session B) (l : list A)
  : Session (list B) :=
  match l with
  | [] => ret []
  | x :: rest =>
      do y <- f x;
      do ys <- for_each f rest;
      ret (y :: ys)
  end.

(** ** What the session offers (sqlmodel over the sqlite engine)

    The definitions of this part stand for the calls the resolvers make
    on their session.  A commit is all or nothing: it either writes the
    pending change or raises and leaves the store as it was.  The
    constraints a commit enforces are the ones models.py declares on
    the tables that [create_db_and_tables] creates:
    - [User.email] is [Field(unique=True, index=True)]: a unique index;
    - [Post.author_id] is a plain [int], hence a NOT NULL column; its
      [foreign_key] is declared but sqlite does not enforce foreign
      keys on a connection that has not asked for it, and database.py
      does not ask;
    - [User.posts] is a [Relationship] with no cascade. *)

(** [session.get(User, id)] and [session.get(Post, id)]: the row whose
    primary key is [id], [None] when there is none. *)
Definition get_user (id : Z) : Session (option User.t) :=
  fun s => (Ok (List.find (fun u => User.id u =? id) (user_table s)), s).

Definition get_post (id : Z) : Session (option Post.t) :=
  fun s => (Ok (List.find (fun p => Post.id p =? id) (post_table s)), s).

(** [.offset(offset).limit(limit)] on a [select]: a clause whose argument
    is [None] is absent; sqlite reads a negative OFFSET as zero and a
    negative LIMIT as no upper bound. *)
Definition offset_limit {A} (offset limit : option Z) (rows : list A)
  : list A :=
  let skipped :=
    match offset with
    | Some o => drop (Z.to_nat o) rows
    | None => rows
    end in
  match limit with
  | Some l => if l <? 0 then skipped else take (Z.to_nat l) skipped
  | None => skipped
  end.

(** [session.exec(select(User).offset(offset).limit(limit)).all()] *)
Definition select_users (offset limit : option Z) : Session (list User.t) :=
  fun s => (Ok (offset_limit offset limit (user_table s)), s).

Definition select_posts (offset limit : option Z) : Session (list Post.t) :=
  fun s => (Ok (offset_limit offset limit (post_table s)), s).

(** [session.exec(select(User).where(User.email == email)).first()] *)
Definition first_user_by_email (email : string) : Session (option User.t) :=
  fun s =>
    (Ok (List.find (fun u => String.eqb (User.email u) email) (user_table s)),
     s).

(** The [author] relationship of a post, loaded through its
    [author_id]. *)
Definition author (p : Post.t) : Session (option User.t) :=
  get_user (Post.author_id p).

(** Reading an attribute of the loaded author: [post.author.id] and the
    like raise [AttributeError] when the relationship is [None]. *)
Definition attr_of_author (p : Post.t) : Session User.t :=
  do a <- author p;
  match a with
  | Some u => ret u
  | None => raise (AttributeError "'NoneType' object has no attribute 'id'")
  end.

(** The id sqlite gives to a row inserted without one: one more than
    the largest rowid in use, and 1 in an empty table.  (Ids are
    unbounded integers here; the 64-bit ceiling of a rowid is not
    modelled.) *)
Definition next_rowid (ids : list Z) : Z :=
  match ids with
  | [] => 1
  | i :: rest => 1 + fold_left Z.max rest i
  end.

(** [session.add(user); session.commit(); session.refresh(user)] for a
    [User(name=, email=, age=)] built at time [now]: the INSERT is
    refused by the unique index on [email]; otherwise the row gets its
    [id] and is appended. *)
Definition add_user (name email : string) (age : option Z) (now : datetime)
  : Session User.t :=
  fun s =>
    if existsb (fun u => String.eqb (User.email u) email) (user_table s)
    then (Raise (IntegrityError "UNIQUE constraint failed: user.email"), s)
    else
      let u := User.mk (next_rowid (map User.id (user_table s)))
                       name email age now in
      (Ok u, mk_store (user_table s ++ [u]) (post_table s)).

(** [session.add(user); session.commit(); session.refresh(user)] for a
    loaded row [old] whose attributes now read [new]: the UPDATE carries
    the changed columns only, so the unique index on [email] is consulted
    only when the email changed. *)
Definition save_user (old new : User.t) : Session User.t :=
  fun s =>
    if negb (String.eqb (User.email new) (User.email old)) &&
       existsb (fun u => negb (User.id u =? User.id old) &&
                         String.eqb (User.email u) (User.email new))
               (user_table s)
    then (Raise (IntegrityError "UNIQUE constraint failed: user.email"), s)
    else
      (Ok new,
       mk_store (map (fun u => if User.id u =? User.id old then new else u)
                     (user_table s))
                (post_table s)).

(** [session.delete(user); session.commit()]: the [posts] relationship
    has no delete cascade, so the posts of the user are first detached
    by setting their [author_id] to NULL, which the NOT NULL column
    refuses. *)
Definition delete_user_row (u : User.t) : Session unit :=
  fun s =>
    if existsb (fun p => Post.author_id p =? User.id u) (post_table s)
    then (Raise (IntegrityError "NOT NULL constraint failed: post.author_id"),
          s)
    else
      (Ok tt,
       mk_store (List.filter (fun v => negb (User.id v =? User.id u))
                            (user_table s))
                (post_table s)).

(** [session.add(post); session.commit(); session.refresh(post)] for a
    new [Post(title=, content=, author_id=)]. *)
Definition add_post (title content : string) (author_id : Z) (now : datetime)
  : Session Post.t :=
  fun s =>
    let p := Post.mk (next_rowid (map Post.id (post_table s)))
                     title content author_id now in
    (Ok p, mk_store (user_table s) (post_table s ++ [p])).

Definition save_post (old new : Post.t) : Session Post.t :=
  fun s =>
    (Ok new,
     mk_store (user_table s)
              (map (fun p => if Post.id p =? Post.id old then new else p)
                   (post_table s))).

Definition delete_post_row (p : Post.t) : Session unit :=
  fun s =>
    (Ok tt,
     mk_store (user_table s)
              (List.filter (fun q => negb (Post.id q =? Post.id p))
                           (post_table s))).

(** ** main.py: [Query] *)

Module Query.

Definition hello : string := "Hello, GraphQL with FastAPI!".

Definition users (limit offset : option Z) : Session (list UserType.t) :=
    do users <- select_users offset limit;
    ret (map (fun user =>
                UserType.mk (User.id user) (User.name user)
                            (User.email user) (User.age user)
                            (isoformat (User.created_at user)))
             users).

Definition user (id : Z) : Session (option UserType.t) :=
    do user <- get_user id;
    match user with
    | Some user =>
        ret (Some (UserType.mk (User.id user) (User.name user)
                               (User.email user) (User.age user)
                               (isoformat (User.created_at user))))
    | None => ret None
    end.

Definition posts (limit offset : option Z) : Session (list PostType.t) :=
    do posts <- select_posts offset limit;
    for_each
      (fun post =>
         (* Ensure we have the author relationship loaded *)
         do post_with_author <- get_post (Post.id post);
         match post_with_author with
         | None =>
             raise (AttributeError "'NoneType' object has no attribute 'id'")
         | Some post_with_author =>
             do author <- attr_of_author post_with_author;
             ret (PostType.mk
                    (Post.id post_with_author)
                    (Post.title post_with_author)
                    (Post.content post_with_author)
                    (isoformat (Post.created_at post_with_author))
                    (UserType.mk (User.id author) (User.name author)
                                 (User.email author) (User.age author)
                                 (isoformat (User.created_at author))))
         end)
      posts.

Definition post (id : Z) : Session (option PostType.t) :=
    do post <- get_post id;
    match post with
    | None => ret None
    | Some post =>
        do post_with_author <- get_post (Post.id post);
        match post_with_author with
        | None =>
            raise (AttributeError "'NoneType' object has no attribute 'id'")
        | Some post_with_author =>
            do author <- attr_of_author post_with_author;
            ret (Some (PostType.mk
                         (Post.id post_with_author)
                         (Post.title post_with_author)
                         (Post.content post_with_author)
                         (isoformat (Post.created_at post_with_author))
                         (UserType.mk (User.id author) (User.name author)
                                      (User.email author) (User.age author)
                                      (isoformat (User.created_at author)))))
        end
    end.

End Query.

(** ** main.py: [Mutation]

    [now] is the reading of [datetime.utcnow] taken when the new row
    object is built. *)

Module Mutation.

Definition create_user (now : datetime) (user_input : UserInput.t)
    : Session UserType.t :=
    (* Check if user already exists *)
    do existing_user <- first_user_by_email (UserInput.email user_input);
    match existing_user with
    | Some _ => raise (Exception "User with this email already exists")
    | None =>
        do user <- add_user (UserInput.name user_input)
                            (UserInput.email user_input)
                            (UserInput.age user_input) now;
        ret (UserType.mk (User.id user) (User.name user) (User.email user)
                         (User.age user) (isoformat (User.created_at user)))
    end.

Definition update_user (id : Z) (name email : option string)
             (age : option Z) : Session UserType.t :=
    do user <- get_user id;
    match user with
    | None => raise (Exception "User not found")
    | Some user0 =>
        let user1 :=
          match name with
          | Some name => User.mk (User.id user0) name (User.email user0)
                                 (User.age user0) (User.created_at user0)
          | None => user0
          end in
        let user2 :=
          match email with
          | Some email => User.mk (User.id user1) (User.name user1) email
                                  (User.age user1) (User.created_at user1)
          | None => user1
          end in
        let user3 :=
          match age with
          | Some age => User.mk (User.id user2) (User.name user2)
                                (User.email user2) (Some age)
                                (User.created_at user2)
          | None => user2
          end in
        do user <- save_user user0 user3;
        ret (UserType.mk (User.id user) (User.name user) (User.email user)
                         (User.age user) (isoformat (User.created_at user)))
    end.

Definition delete_user (id : Z) : Session bool :=
    do user <- get_user id;
    match user with
    | None => raise (Exception "User not found")
    | Some user =>
        do _ <- delete_user_row user;
        ret true
    end.

Definition create_post (now : datetime) (post_input : PostInput.t)
    : Session PostType.t :=
    (* Check if author exists *)
    do author <- get_user (PostInput.author_id post_input);
    match author with
    | None => raise (Exception "Author not found")
    | Some _ =>
        do post <- add_post (PostInput.title post_input)
                            (PostInput.content post_input)
                            (PostInput.author_id post_input) now;
        (* Get the post with author relationship *)
        do post_with_author <- get_post (Post.id post);
        match post_with_author with
        | None =>
            raise (AttributeError "'NoneType' object has no attribute 'id'")
        | Some post_with_author =>
            do author <- attr_of_author post_with_author;
            ret (PostType.mk
                   (Post.id post_with_author)
                   (Post.title post_with_author)
                   (Post.content post_with_author)
                   (isoformat (Post.created_at post_with_author))
                   (UserType.mk (User.id author) (User.name author)
                                (User.email author) (User.age author)
                                (isoformat (User.created_at author))))
        end
    end.

Definition update_post (id : Z) (title content : option string)
    : Session PostType.t :=
    do post <- get_post id;
    match post with
    | None => raise (Exception "Post not found")
    | Some post0 =>
        let post1 :=
          match title with
          | Some title => Post.mk (Post.id post0) title (Post.content post0)
                                  (Post.author_id post0)
                                  (Post.created_at post0)
          | None => post0
          end in
        let post2 :=
          match content with
          | Some content => Post.mk (Post.id post1) (Post.title post1)
                                    content (Post.author_id post1)
                                    (Post.created_at post1)
          | None => post1
          end in
        do post <- save_post post0 post2;
        do post_with_author <- get_post (Post.id post);
        match post_with_author with
        | None =>
            raise (AttributeError "'NoneType' object has no attribute 'id'")
        | Some post_with_author =>
            do author <- attr_of_author post_with_author;
            ret (PostType.mk
                   (Post.id post_with_author)
                   (Post.content post_with_author)   (* title= *)
                   (Post.content post_with_author)   (* content= *)
                   (isoformat (Post.created_at post_with_author))
                   (UserType.mk (User.id author) (User.name author)
                                (User.email author) (User.age author)
                                (isoformat (User.created_at author))))
        end
    end.

Definition delete_post (id : Z) : Session bool :=
    do post <- get_post id;
    match post with
    | None => raise (Exception "Post not found")
    | Some post =>
        do _ <- delete_post_row post;
        ret true
    end.

End Mutation.

(** ** main.py: [Subscription]

    [count] is an async generator: [for i in range(target): yield i;
    await asyncio.sleep(1)].  Its state is the position of the range
    iterator; resuming it either runs one turn of the loop (one value is
    emitted, then the generator sleeps for one second) or finds the
    range exhausted and completes. *)

Module Subscription.

Inductive event :=
  | Yield (i : Z)
  | Sleep (seconds : Z).

Record generator := mk_generator { next : Z; stop : Z }.

  (** The generator object [count(target)] before its first resumption. *)
Definition count (target : Z) : generator := mk_generator 0 target.

  (** One resumption; [None] is the completion of the generator. *)
Definition resume (g : generator) : option (list event * generator) :=
    if next g <? stop g
    then Some ([Yield (next g); Sleep 1], mk_generator (next g + 1) (stop g))
    else None.

  (** The consumer's loop, resuming at most [fuel] times after which the
      generator must have completed: [Some evs] is a completed stream
      with its events, [None] a stream still running when the fuel ran
      out. *)
Fixpoint drain (fuel : nat) (g : generator) : option (list event) :=
    match resume g with
    | None => Some []
    | Some (evs, g') =>
        match fuel with
        | O => None
        | S fuel' =>
            match drain fuel' g' with
            | Some rest => Some (evs ++ rest)
            | None => None
            end
        end
    end.

  (** The values a stream of events delivers to the subscriber. *)
Fixpoint emitted (evs : list event) : list Z :=
    match evs with
    | [] => []
    | Yield i :: rest => i :: emitted rest
    | Sleep _ :: rest => emitted rest
    end.

End Subscription.

(** ** resolvers.py *)

Module UserResolver.

Definition hello : string := "Hello, GraphQL with FastAPI!".

Definition users (limit offset : option Z) : Session (list UserType.t) :=
    do users <- select_users offset limit;
    ret (map (fun user =>
                UserType.mk (User.id user) (User.name user)
                            (User.email user) (User.age user)
                            (isoformat (User.created_at user)))
             users).

Definition user (id : Z) : Session (option UserType.t) :=
    do user <- get_user id;
    match user with
    | Some user =>
        ret (Some (UserType.mk (User.id user) (User.name user)
                               (User.email user) (User.age user)
                               (isoformat (User.created_at user))))
    | None => ret None
    end.

End UserResolver.

Module UserMutation.

Definition create_user (now : datetime) (user_input : UserInput.t)
    : Session UserType.t :=
    do existing_user <- first_user_by_email (UserInput.email user_input);
    match existing_user with
    | Some _ => raise (Exception "User with this email already exists")
    | None =>
        do user <- add_user (UserInput.name user_input)
                            (UserInput.email user_input)
                            (UserInput.age user_input) now;
        ret (UserType.mk (User.id user) (User.name user) (User.email user)
                         (User.age user) (isoformat (User.created_at user)))
    end.

Definition update_user (id : Z) (user_input : UserUpdateInput.t)
    : Session UserType.t :=
    do user <- get_user id;
    match user with
    | None => raise (Exception "User not found")
    | Some user0 =>
        let user1 :=
          match UserUpdateInput.name user_input with
          | Some name => User.mk (User.id user0) name (User.email user0)
                                 (User.age user0) (User.created_at user0)
          | None => user0
          end in
        let user2 :=
          match UserUpdateInput.email user_input with
          | Some email => User.mk (User.id user1) (User.name user1) email
                                  (User.age user1) (User.created_at user1)
          | None => user1
          end in
        let user3 :=
          match UserUpdateInput.age user_input with
          | Some age => User.mk (User.id user2) (User.name user2)
                                (User.email user2) (Some age)
                                (User.created_at user2)
          | None => user2
          end in
        do user <- save_user user0 user3;
        ret (UserType.mk (User.id user) (User.name user) (User.email user)
                         (User.age user) (isoformat (User.created_at user)))
    end.

Definition delete_user (id : Z) : Session bool :=
    do user <- get_user id;
    match user with
    | None => raise (Exception "User not found")
    | Some user =>
        do _ <- delete_user_row user;
        ret true
    end.

End UserMutation.

Module PostResolver.

Definition posts (limit offset : option Z) : Session (list PostType.t) :=
    do posts <- select_posts offset limit;
    for_each
      (fun post =>
         do author <- attr_of_author post;
         ret (PostType.mk
                (Post.id post) (Post.title post) (Post.content post)
                (isoformat (Post.created_at post))
                (UserType.mk (User.id author) (User.name author)
                             (User.email author) (User.age author)
                             (isoformat (User.created_at author)))))
      posts.

End PostResolver.

Module PostMutation.

Definition create_post (now : datetime) (post_input : PostInput.t)
    : Session PostType.t :=
    do author <- get_user (PostInput.author_id post_input);
    match author with
    | None => raise (Exception "Author not found")
    | Some _ =>
        do post <- add_post (PostInput.title post_input)
                            (PostInput.content post_input)
                            (PostInput.author_id post_input) now;
        (* Refresh to get author data *)
        do post_with_author <- get_post (Post.id post);
        match post_with_author with
        | None =>
            raise (AttributeError "'NoneType' object has no attribute 'id'")
        | Some post_with_author =>
            do author <- attr_of_author post_with_author;
            ret (PostType.mk
                   (Post.id post_with_author)
                   (Post.title post_with_author)
                   (Post.content post_with_author)
                   (isoformat (Post.created_at post_with_author))
                   (UserType.mk (User.id author) (User.name author)
                                (User.email author) (User.age author)
                                (isoformat (User.created_at author))))
        end
    end.

End PostMutation.

(** ** The schema of main.py

    [strawberry.Schema(query=Query, mutation=Mutation, ...)]: a field of
    a request names a resolver and gives its arguments.  An optional
    argument is either left out, given as [null], or given a value; the
    resolver receives its Python default when the argument is left out
    and [None] when it is [null]. *)

Inductive gql_arg (A : Type) :=
| Omitted
| Null
| Given (a : A).
Arguments Omitted {A}.
Arguments Null {A}.
Arguments Given {A} a.

Definition argument {A} (default : option A) (x : gql_arg A) : option A :=
  match x with
  | Omitted => default
  | Null => None
  | Given a => Some a
  end.

Module Schema.

Inductive query :=
  | hello
  | users (limit offset : gql_arg Z)
  | user (id : Z)
  | posts (limit offset : gql_arg Z)
  | post (id : Z).

Inductive mutation :=
  | createUser (user_input : UserInput.t)
  | updateUser (id : Z) (name email : gql_arg string) (age : gql_arg Z)
  | deleteUser (id : Z)
  | createPost (post_input : PostInput.t)
  | updatePost (id : Z) (title content : gql_arg string)
  | deletePost (id : Z).

Inductive data :=
  | String_ (v : string)
  | Boolean (v : bool)
  | UserList (v : list UserType.t)
  | UserOrNull (v : option UserType.t)
  | User_ (v : UserType.t)
  | PostList (v : list PostType.t)
  | PostOrNull (v : option PostType.t)
  | Post_ (v : PostType.t).

Definition execute_query (q : query) : Session data :=
    match q with
    | hello => ret (String_ Query.hello)
    | users limit offset =>
        do v <- Query.users (argument (Some 10) limit)
                            (argument (Some 0) offset);
        ret (UserList v)
    | user id =>
        do v <- Query.user id; ret (UserOrNull v)
    | posts limit offset =>
        do v <- Query.posts (argument (Some 10) limit)
                            (argument (Some 0) offset);
        ret (PostList v)
    | post id =>
        do v <- Query.post id; ret (PostOrNull v)
    end.

Definition execute_mutation (now : datetime) (m : mutation)
    : Session data :=
    match m with
    | createUser user_input =>
        do v <- Mutation.create_user now user_input; ret (User_ v)
    | updateUser id name email age =>
        do v <- Mutation.update_user id (argument None name)
                                     (argument None email)
                                     (argument None age);
        ret (User_ v)
    | deleteUser id =>
        do v <- Mutation.delete_user id; ret (Boolean v)
    | createPost post_input =>
        do v <- Mutation.create_post now post_input; ret (Post_ v)
    | updatePost id title content =>
        do v <- Mutation.update_post id (argument None title)
                                     (argument None content);
        ret (Post_ v)
    | deletePost id =>
        do v <- Mutation.delete_post id; ret (Boolean v)
    end.

  (** The update mutations, and a series of requests run one after the
      other, each at its own time on the store the previous one left. *)
Definition is_update (m : mutation) : bool :=
    match m with
    | updateUser _ _ _ _ => true
    | updatePost _ _ _ => true
    | _ => false
    end.

Fixpoint execute_all (requests : list (datetime * mutation)) (s : store)
    : store :=
    match requests with
    | [] => s
    | (now, m) :: rest => execute_all rest (snd (execute_mutation now m s))
    end.

End Schema.

(** ** Views and predicates used to state the properties *)

(** The wire view of a stored user and of a stored post with its
    author. *)
Definition user_type (u : User.t) : UserType.t :=
  UserType.mk (User.id u) (User.name u) (User.email u) (User.age u)
              (isoformat (User.created_at u)).

Definition post_type (p : Post.t) (a : User.t) : PostType.t :=
  PostType.mk (Post.id p) (Post.title p) (Post.content p)
              (isoformat (Post.created_at p)) (user_type a).

(** The stored row with a given primary key. *)
Definition stored_user (s : store) (id : Z) : option User.t :=
  List.find (fun u => User.id u =? id) (user_table s).

Definition stored_post (s : store) (id : Z) : option Post.t :=
  List.find (fun p => Post.id p =? id) (post_table s).

(** The table after the UPDATE of the rows that have the key of [old]. *)
Definition replace_post (old new : Post.t) (rows : list Post.t)
  : list Post.t :=
  map (fun p => if Post.id p =? Post.id old then new else p) rows.

Definition replace_user (old new : User.t) (rows : list User.t)
  : list User.t :=
  map (fun u => if User.id u =? User.id old then new else u) rows.

(** The two forms of updateUser: keyword arguments in main.py, a
    [UserUpdateInput] in resolvers.py. *)
Definition update_user_impls
  : list (Z -> option string -> option string -> option Z ->
          Session UserType.t) :=
  [Mutation.update_user;
   fun id name email age =>
     UserMutation.update_user id (UserUpdateInput.mk name email age)].

(** A session computation that never writes: it hands back the store
    it was given, whether it returns or raises. *)
Definition read_only {A} (m : Session A) : Prop :=
  forall s, snd (m s) = s.

(** The finite sequence 0, 1, ..., target-1 (empty when [target <= 0]),
    and the events of a stream that emits the values of a list, each
    followed by the one-second delay. *)
Definition upto (target : Z) : list Z :=
  map Z.of_nat (seq 0 (Z.to_nat target)).

Definition paced (values : list Z) : list Subscription.event :=
  flat_map (fun i => [Subscription.Yield i; Subscription.Sleep 1]) values.

(** The request in which every explicit [null] is left out instead. *)
Definition null_as_omitted {A} (x : gql_arg A) : gql_arg A :=
  match x with
  | Null => Omitted
  | _ => x
  end.

(** The two forms of the posts query: main.py loads each post again
    before reading its author, resolvers.py reads it directly. *)
Definition posts_impls
  : list (option Z -> option Z -> Session (list PostType.t)) :=
  [Query.posts; PostResolver.posts].

(** Partial update, in the words of the specification: a supplied field
    overwrites the stored value, an absent one leaves it unchanged. *)
Definition supplied {A} (new : option A) (old : A) : A :=
  match new with
  | Some v => v
  | None => old
  end.

Definition overwrite_user (name email : option string) (age : option Z)
           (u : User.t) : User.t :=
  User.mk (User.id u)
          (supplied name (User.name u))
          (supplied email (User.email u))
          (match age with Some a => Some a | None => User.age u end)
          (User.created_at u).

Definition overwrite_post (title content : option string) (p : Post.t)
  : Post.t :=
  Post.mk (Post.id p)
          (supplied title (Post.title p))
          (supplied content (Post.content p))
          (Post.author_id p)
          (Post.created_at p).

(** [email_in_use_elsewhere s u e]: a stored user other than [u] has the
    email [e]. *)
Definition email_in_use_elsewhere (s : store) (u : User.t) (e : string)
  : bool :=
  existsb (fun v => negb (User.id v =? User.id u) &&
                    String.eqb (User.email v) e)
          (user_table s).

Definition owns_posts (s : store) (u : User.t) : bool :=
  existsb (fun p => Post.author_id p =? User.id u) (post_table s).

(** The constraints of the schema, as a check on a store: primary keys
    ascend along each table, emails are pairwise distinct, and the
    author of every post is a stored user. *)
Fixpoint ascending (ids : list Z) : bool :=
  match ids with
  | [] => true
  | i :: rest =>
      match rest with
      | [] => true
      | j :: _ => (i <? j) && ascending rest
      end
  end.

Fixpoint distinct (l : list string) : bool :=
  match l with
  | [] => true
  | x :: rest => negb (existsb (String.eqb x) rest) && distinct rest
  end.

Definition authors_stored (s : store) : bool :=
  forallb (fun p => existsb (fun u => User.id u =? Post.author_id p)
                            (user_table s))
          (post_table s).

Definition well_formed (s : store) : bool :=
  ascending (map User.id (user_table s)) &&
  ascending (map Post.id (post_table s)) &&
  distinct (map User.email (user_table s)) &&
  authors_stored s.

(** The two forms of the users query (main.py also prints the statement
    and the rows). *)
Definition users_impls
  : list (option Z -> option Z -> Session (list UserType.t)) :=
  [Query.users; UserResolver.users].

(** ** Sample stores *)

Definition t0 : datetime := mk_datetime 2024 1 15 10 30 0 0.
Definition t1 : datetime := mk_datetime 2024 2 1 8 0 5 4200.

Definition alice : User.t := User.mk 1 "Alice" "alice@example.com" (Some 30) t0.
Definition bob : User.t := User.mk 2 "Bob" "bob@example.com" None t0.

Definition carol_input : UserInput.t :=
  UserInput.mk "Carol" "carol@example.com" (Some 41).

Definition alice_again : UserInput.t :=
  UserInput.mk "Alice B." "alice@example.com" None.

Definition two_users : store := mk_store [alice; bob] [].

Definition numbered_post (n : Z) (author_id : Z) : Post.t :=
  Post.mk n "A title" "Some content" author_id t0.

Definition five_posts : store :=
  mk_store [alice; bob]
           [numbered_post 1 1; numbered_post 2 2; numbered_post 3 1;
            numbered_post 4 1; numbered_post 5 2].

Definition first_post : Post.t :=
  Post.mk 1 "Old title" "Old content" 1 t0.

Definition blog : store := mk_store [alice; bob] [first_post].

(** * Properties *)

(** ** Lists of rows *)

Lemma fold_max_ge (l : list Z) (a : Z) : a <= fold_left Z.max l a.
Proof.
  revert a. induction l as [|x l IH]; intros a; simpl; [lia|].
  specialize (IH (Z.max a x)). lia.
Qed.

Lemma fold_max_bound (l : list Z) (a i : Z) :
  In i l -> i <= fold_left Z.max l a.
Proof.
  revert a. induction l as [|x l IH]; intros a [].
  - subst. simpl. pose proof (fold_max_ge l (Z.max a i)). lia.
  - simpl. now apply IH.
Qed.

(** The id given to a new row is larger than every id in the table. *)
Lemma next_rowid_above (ids : list Z) (i : Z) :
  In i ids -> i < next_rowid ids.
Proof.
  destruct ids as [|a l]; intros []; simpl.
  - subst. pose proof (fold_max_ge l i). lia.
  - pose proof (fold_max_bound l a i H). lia.
Qed.

Lemma next_rowid_fresh (ids : list Z) : ~ In (next_rowid ids) ids.
Proof. intros H. apply next_rowid_above in H. lia. Qed.

Lemma find_app_last {A} (f : A -> bool) (l : list A) (x : A) :
  List.find f l = None -> f x = true -> List.find f (l ++ [x]) = Some x.
Proof.
  induction l as [|y l IH]; simpl; intros Hn Hx.
  - now rewrite Hx.
  - destruct (f y); [discriminate | now apply IH].
Qed.

Lemma find_user_fresh (rows : list User.t) :
  List.find (fun u => User.id u =? next_rowid (map User.id rows)) rows = None.
Proof.
  destruct (List.find _ rows) as [u|] eqn:E; [|reflexivity].
  apply find_some in E as [Hin Heq]. apply Z.eqb_eq in Heq.
  exfalso. apply (next_rowid_fresh (map User.id rows)).
  rewrite <- Heq. now apply in_map.
Qed.

Lemma find_post_fresh (rows : list Post.t) :
  List.find (fun p => Post.id p =? next_rowid (map Post.id rows)) rows = None.
Proof.
  destruct (List.find _ rows) as [p|] eqn:E; [|reflexivity].
  apply find_some in E as [Hin Heq]. apply Z.eqb_eq in Heq.
  exfalso. apply (next_rowid_fresh (map Post.id rows)).
  rewrite <- Heq. now apply in_map.
Qed.

Lemma find_email_none (rows : list User.t) (e : string) :
  List.find (fun u => String.eqb (User.email u) e) rows = None <->
  (forall u, In u rows -> User.email u <> e).
Proof.
  split.
  - intros H u Hin Heq. apply (find_none _ _ H) in Hin.
    apply String.eqb_neq in Hin. contradiction.
  - intros H. destruct (List.find _ rows) as [u|] eqn:E; [|reflexivity].
    apply find_some in E as [Hin Heq]. apply String.eqb_eq in Heq.
    now apply H in Hin.
Qed.

Lemma existsb_email_false (rows : list User.t) (e : string) :
  (forall u, In u rows -> User.email u <> e) ->
  existsb (fun u => String.eqb (User.email u) e) rows = false.
Proof.
  intros H. apply not_true_is_false. intros Hex.
  apply existsb_exists in Hex as (u & Hin & Heq).
  apply String.eqb_eq in Heq. now apply H in Hin.
Qed.

(** ** resolvers.py against main.py *)

Lemma UserMutation_create_user_eq :
  UserMutation.create_user = Mutation.create_user.
Proof. reflexivity. Qed.

Lemma UserMutation_update_user_eq id name email age :
  UserMutation.update_user id (UserUpdateInput.mk name email age)
  = Mutation.update_user id name email age.
Proof. reflexivity. Qed.

Lemma PostMutation_create_post_eq :
  PostMutation.create_post = Mutation.create_post.
Proof. reflexivity. Qed.

(** ** createUser *)

(** C2. For every store and every createUser input (in main.py and in
    resolvers.py alike): when some stored user already has the email of
    the input, the call fails with DuplicateEmail and the store is
    unchanged; when no stored user has it, the call appends one row
    holding the input's fields, a fresh id and the creation time, and
    returns that full user. *)
Theorem create_user_duplicate_or_insert
  (impl : datetime -> UserInput.t -> Session UserType.t)
  (now : datetime) (user_input : UserInput.t) (s : store) :
  In impl [Mutation.create_user; UserMutation.create_user] ->
  ((exists u, In u (user_table s) /\
              User.email u = UserInput.email user_input) ->
   fails_with (fst (impl now user_input s)) DuplicateEmail /\
   snd (impl now user_input s) = s)
  /\
  ((forall u, In u (user_table s) ->
              User.email u <> UserInput.email user_input) ->
   let u := User.mk (next_rowid (map User.id (user_table s)))
                    (UserInput.name user_input)
                    (UserInput.email user_input)
                    (UserInput.age user_input) now in
   let s' := mk_store (user_table s ++ [u]) (post_table s) in
   impl now user_input s = (Ok (user_type u), s') /\
   ~ In (User.id u) (map User.id (user_table s)) /\
   stored_user s' (User.id u) = Some u).
Proof.
  intros Himpl.
  assert (impl = Mutation.create_user) as ->.
  { destruct Himpl as [<-|[<-|[]]]; reflexivity. }
  unfold Mutation.create_user, bind, first_user_by_email, add_user, ret, raise.
  split.
  - intros (u & Hin & Heq).
    destruct (List.find _ (user_table s)) as [v|] eqn:E.
    + simpl. split; [|reflexivity].
      eexists. split; reflexivity.
    + exfalso. apply find_email_none with (u := u) in E; auto.
  - intros Hfree. cbv zeta.
    apply find_email_none in Hfree as Hfind. rewrite Hfind.
    rewrite (existsb_email_false _ _ Hfree). simpl.
    split; [reflexivity|]. split.
    + apply next_rowid_fresh.
    + unfold stored_user. simpl. apply find_app_last.
      * apply find_user_fresh.
      * simpl. apply Z.eqb_refl.
Qed.

Lemma create_user_duplicate_or_insert_witness :
  (fails_with (fst (Mutation.create_user t1 alice_again two_users))
              DuplicateEmail /\
   snd (Mutation.create_user t1 alice_again two_users) = two_users) /\
  UserMutation.create_user t1 carol_input two_users
  = (Ok (UserType.mk 3 "Carol" "carol@example.com" (Some 41)
                     "2024-02-01T08:00:05.004200"),
     mk_store [alice; bob; User.mk 3 "Carol" "carol@example.com" (Some 41) t1]
              []).
Proof.
  split.
  - apply (create_user_duplicate_or_insert
             Mutation.create_user t1 alice_again two_users).
    + simpl. auto.
    + exists alice. split; [simpl; auto | reflexivity].
  - apply (create_user_duplicate_or_insert
             UserMutation.create_user t1 carol_input two_users).
    + simpl. auto.
    + intros u [<-|[<-|[]]]; discriminate.
Defined.

(** ** createPost *)

(** C6. For every store and every createPost input (in main.py and in
    resolvers.py alike): when author_id names no stored user the call
    fails with AuthorNotFound and the store is unchanged; when it names
    the stored user [a], one post row is appended and the call returns
    that post with [a] embedded as its author. *)
Theorem create_post_author_checked
  (impl : datetime -> PostInput.t -> Session PostType.t)
  (now : datetime) (post_input : PostInput.t) (s : store) :
  In impl [Mutation.create_post; PostMutation.create_post] ->
  (stored_user s (PostInput.author_id post_input) = None ->
   fails_with (fst (impl now post_input s)) AuthorNotFound /\
   snd (impl now post_input s) = s)
  /\
  (forall a, stored_user s (PostInput.author_id post_input) = Some a ->
   let p := Post.mk (next_rowid (map Post.id (post_table s)))
                    (PostInput.title post_input)
                    (PostInput.content post_input)
                    (PostInput.author_id post_input) now in
   impl now post_input s
   = (Ok (post_type p a), mk_store (user_table s) (post_table s ++ [p]))).
Proof.
  intros Himpl.
  assert (impl = Mutation.create_post) as ->.
  { destruct Himpl as [<-|[<-|[]]]; reflexivity. }
  unfold stored_user, Mutation.create_post, bind, get_user, ret, raise.
  split.
  - intros ->. simpl. split; [|reflexivity].
    eexists. split; reflexivity.
  - intros a Ha. rewrite Ha. cbv zeta.
    unfold add_post, get_post, attr_of_author, author, bind, get_user, ret.
    cbn [user_table post_table Post.id Post.author_id fst snd].
    rewrite (find_app_last _ (post_table s)).
    + cbn [Post.id Post.author_id Post.title Post.content Post.created_at
             user_table].
      rewrite Ha. reflexivity.
    + apply find_post_fresh.
    + apply Z.eqb_refl.
Qed.

Lemma create_post_author_checked_witness :
  (fails_with
     (fst (Mutation.create_post t1 (PostInput.mk "T" "C" 7) two_users))
     AuthorNotFound /\
   snd (Mutation.create_post t1 (PostInput.mk "T" "C" 7) two_users)
   = two_users) /\
  PostMutation.create_post t1 (PostInput.mk "T" "C" 2) blog
  = (Ok (PostType.mk 2 "T" "C" "2024-02-01T08:00:05.004200"
                     (UserType.mk 2 "Bob" "bob@example.com" None
                                  "2024-01-15T10:30:00")),
     mk_store [alice; bob] [first_post; Post.mk 2 "T" "C" 2 t1]).
Proof.
  split.
  - apply (create_post_author_checked
             Mutation.create_post t1 (PostInput.mk "T" "C" 7) two_users).
    + simpl. auto.
    + reflexivity.
  - refine (proj2 (create_post_author_checked
                     PostMutation.create_post t1 (PostInput.mk "T" "C" 2)
                     blog _) bob _).
    + simpl. auto.
    + reflexivity.
Defined.

(** ** updatePost *)

Lemma find_map_replace {A} (key : A -> Z) (rows : list A) (old new : A) :
  key new = key old ->
  List.find (fun r => key r =? key old) rows = Some old ->
  List.find (fun r => key r =? key old)
            (map (fun r => if key r =? key old then new else r) rows)
  = Some new.
Proof.
  intros Hk. induction rows as [|r rows IH]; simpl; [discriminate|].
  destruct (key r =? key old) eqn:E.
  - intros _. simpl. now rewrite Hk, Z.eqb_refl.
  - intros H. simpl. rewrite E. now apply IH.
Qed.

Lemma find_key {A} (key : A -> Z) (rows : list A) (id : Z) (r : A) :
  List.find (fun r => key r =? id) rows = Some r -> key r = id.
Proof. intros H. apply find_some in H as [_ H]. now apply Z.eqb_eq. Qed.

(** What [Mutation.update_post] computes, by cases on the lookups it
    makes. *)
Lemma update_post_eq id title content s :
  Mutation.update_post id title content s =
  match stored_post s id with
  | None => (Raise (Exception "Post not found"), s)
  | Some p =>
      let p' := overwrite_post title content p in
      let s' := mk_store (user_table s) (replace_post p p' (post_table s)) in
      match stored_user s (Post.author_id p) with
      | None =>
          (Raise (AttributeError "'NoneType' object has no attribute 'id'"),
           s')
      | Some a =>
          (Ok (PostType.mk (Post.id p) (Post.content p') (Post.content p')
                           (isoformat (Post.created_at p)) (user_type a)),
           s')
      end
  end.
Proof.
  unfold Mutation.update_post, stored_post, bind, get_post at 1.
  destruct (List.find _ (post_table s)) as [p|] eqn:Hp; [|reflexivity].
  cbv zeta.
  pose proof (find_key Post.id _ _ _ Hp) as Hid.
  match goal with
  | |- context [save_post p ?q] =>
      replace q with (overwrite_post title content p)
        by (destruct title, content, p; reflexivity)
  end.
  unfold save_post, get_post. cbn [user_table post_table fst snd].
  fold (replace_post p (overwrite_post title content p) (post_table s)).
  assert (Hfind :
    List.find (fun q => Post.id q =? Post.id (overwrite_post title content p))
              (replace_post p (overwrite_post title content p) (post_table s))
    = Some (overwrite_post title content p)).
  { cbn [overwrite_post Post.id].
    apply (find_map_replace Post.id); [reflexivity|]. now rewrite Hid. }
  rewrite Hfind.
  unfold attr_of_author, author, bind, get_user, ret, raise, stored_user.
  cbn [user_table overwrite_post Post.author_id].
  destruct (List.find _ (user_table s)); reflexivity.
Qed.

(** updatePost on an id that names no stored post fails with NotFound
    and leaves the store unchanged. *)
Lemma update_post_not_found id title content s :
  stored_post s id = None ->
  fails_with (fst (Mutation.update_post id title content s)) NotFound /\
  snd (Mutation.update_post id title content s) = s.
Proof.
  intros H. rewrite update_post_eq, H. simpl.
  split; [|reflexivity]. eexists. split; reflexivity.
Qed.

(** The stored row after updatePost is the partial update of the row
    before, whatever the call returns. *)
Lemma update_post_stores id title content s p :
  stored_post s id = Some p ->
  stored_post (snd (Mutation.update_post id title content s)) id
  = Some (overwrite_post title content p).
Proof.
  intros Hp. rewrite update_post_eq, Hp. cbv zeta.
  pose proof (find_key Post.id _ _ _ Hp) as Hid.
  assert (stored_post
            (mk_store (user_table s)
               (replace_post p (overwrite_post title content p)
                             (post_table s))) id
          = Some (overwrite_post title content p)) as H.
  { unfold stored_post, replace_post. cbn [post_table]. rewrite <- Hid.
    apply (find_map_replace Post.id); [reflexivity|]. now rewrite Hid. }
  destruct (stored_user s (Post.author_id p)); exact H.
Qed.

(** Whatever updatePost returns has the stored content in its title
    field: line 284 of main.py reads [title=post_with_author.content]. *)
Lemma update_post_title_is_content id title content s r s' :
  Mutation.update_post id title content s = (Ok r, s') ->
  PostType.title r = PostType.content r.
Proof.
  rewrite update_post_eq.
  destruct (stored_post s id); [|discriminate]. cbv zeta.
  destruct (stored_user s _); [|discriminate].
  intros H. injection H as <- _. reflexivity.
Qed.

(** C1. On the store [blog], whose only post has id 1, title
    "Old title" and content "Old content", updatePost(1, title="New
    title") succeeds and stores the new title, but the Post it returns
    carries the stored content in its title field: the returned title
    differs from the title stored for that post after the update. *)
Theorem update_post_returns_content_as_title :
  exists r s',
    Mutation.update_post 1 (Some "New title") None blog = (Ok r, s') /\
    stored_post s' 1 = Some (Post.mk 1 "New title" "Old content" 1 t0) /\
    PostType.content r = "Old content" /\
    PostType.author r = user_type alice /\
    PostType.title r = "Old content" /\
    PostType.title r <> "New title".
Proof.
  eexists. eexists. split; [vm_compute; reflexivity|].
  repeat split; try reflexivity. discriminate.
Qed.

(** ** updateUser *)

Lemma find_map_replace_other {A} (key : A -> Z) (rows : list A)
      (old new : A) (id : Z) :
  key new = key old -> key old <> id ->
  List.find (fun r => key r =? id)
            (map (fun r => if key r =? key old then new else r) rows)
  = List.find (fun r => key r =? id) rows.
Proof.
  intros Hk Hne. induction rows as [|r rows IH]; simpl; [reflexivity|].
  destruct (key r =? key old) eqn:E.
  - apply Z.eqb_eq in E.
    replace (key new =? id) with false by (symmetry; apply Z.eqb_neq; lia).
    replace (key r =? id) with false by (symmetry; apply Z.eqb_neq; lia).
    exact IH.
  - destruct (key r =? id); [reflexivity | exact IH].
Qed.

(** What [Mutation.update_user] computes, by cases on the lookup it
    makes and on the store's answer to the commit. *)
Lemma update_user_eq id name email age s :
  Mutation.update_user id name email age s =
  match stored_user s id with
  | None => (Raise (Exception "User not found"), s)
  | Some u =>
      let u' := overwrite_user name email age u in
      if negb (String.eqb (User.email u') (User.email u)) &&
         email_in_use_elsewhere s u (User.email u')
      then (Raise (IntegrityError "UNIQUE constraint failed: user.email"), s)
      else (Ok (user_type u'),
            mk_store (replace_user u u' (user_table s)) (post_table s))
  end.
Proof.
  unfold Mutation.update_user, stored_user, bind, get_user.
  destruct (List.find _ (user_table s)) as [u|] eqn:Hu; [|reflexivity].
  cbv zeta.
  match goal with
  | |- context [save_user u ?v] =>
      replace v with (overwrite_user name email age u)
        by (destruct name, email, age, u; reflexivity)
  end.
  unfold save_user, email_in_use_elsewhere.
  destruct (negb _ && existsb _ _); reflexivity.
Qed.

Lemma stored_user_replace_same (s : store) (u u' : User.t) (id : Z) :
  stored_user s id = Some u -> User.id u' = User.id u ->
  stored_user (mk_store (replace_user u u' (user_table s)) (post_table s)) id
  = Some u'.
Proof.
  unfold stored_user, replace_user. cbn [user_table]. intros Hu Hid.
  pose proof (find_key User.id _ _ _ Hu) as Hk. rewrite <- Hk.
  apply (find_map_replace User.id); [exact Hid | now rewrite Hk].
Qed.

Lemma stored_user_replace_other (s : store) (u u' : User.t) (j : Z) :
  User.id u' = User.id u -> User.id u <> j ->
  stored_user (mk_store (replace_user u u' (user_table s)) (post_table s)) j
  = stored_user s j.
Proof.
  unfold stored_user, replace_user. cbn [user_table]. intros Hid Hne.
  now apply (find_map_replace_other User.id).
Qed.

Lemma update_user_impls_eq impl :
  In impl update_user_impls -> impl = Mutation.update_user.
Proof. intros [<-|[<-|[]]]; reflexivity. Qed.

(** After updateUser on the id of a stored user, accepted or refused,
    the row is still stored with the same id and created_at, and every
    field that was not supplied is unchanged. *)
Lemma update_user_frame id name email age s u :
  stored_user s id = Some u ->
  exists v,
    stored_user (snd (Mutation.update_user id name email age s)) id = Some v /\
    User.id v = User.id u /\
    User.created_at v = User.created_at u /\
    (name = None -> User.name v = User.name u) /\
    (email = None -> User.email v = User.email u) /\
    (age = None -> User.age v = User.age u).
Proof.
  intros Hu. rewrite update_user_eq, Hu. cbv zeta.
  destruct (negb _ && _); cbn [snd].
  - exists u. repeat split; auto.
  - exists (overwrite_user name email age u).
    split; [now apply stored_user_replace_same|].
    repeat split; intros ->; reflexivity.
Qed.

(** C3, amended. For every stored user [u] and every updateUser call
    on its id (in main.py and in resolvers.py alike):
    - unless a supplied email differs from the email of [u] and is the
      email of another stored user, the call succeeds and the stored row
      becomes [u] with exactly the supplied fields overwritten;
    - when a supplied email differs from the email of [u] and is the
      email of another stored user, the commit is refused: the call
      raises the integrity error of the unique index, the store is
      unchanged and the stored row is still [u], with no field
      overwritten;
    - with only age supplied the call always succeeds, name and email
      keep their prior values and the age becomes the supplied one;
    - after every call the row is still stored with the id and the
      created_at of [u] and with every field that was not supplied
      unchanged, and no other row of the store has changed. *)
Theorem update_user_overwrites_supplied_fields
  (impl : Z -> option string -> option string -> option Z ->
          Session UserType.t)
  (id : Z) (name email : option string) (age : option Z)
  (s : store) (u : User.t) :
  In impl update_user_impls ->
  stored_user s id = Some u ->
  let u' := overwrite_user name email age u in
  let s' := snd (impl id name email age s) in
  ((forall e, email = Some e -> e <> User.email u ->
              email_in_use_elsewhere s u e = false) ->
   fst (impl id name email age s) = Ok (user_type u') /\
   stored_user s' id = Some u')
  /\
  (forall e, email = Some e -> e <> User.email u ->
             email_in_use_elsewhere s u e = true ->
   impl id name email age s
   = (Raise (IntegrityError "UNIQUE constraint failed: user.email"), s) /\
   s' = s /\
   stored_user s' id = Some u)
  /\
  (forall a, name = None -> email = None -> age = Some a ->
   fst (impl id name email age s) = Ok (user_type u') /\
   stored_user s' id = Some u' /\
   User.name u' = User.name u /\ User.email u' = User.email u /\
   User.age u' = Some a)
  /\
  (exists v, stored_user s' id = Some v /\
             User.id v = User.id u /\
             User.created_at v = User.created_at u /\
             (name = None -> User.name v = User.name u) /\
             (email = None -> User.email v = User.email u) /\
             (age = None -> User.age v = User.age u))
  /\
  (forall j, j <> id -> stored_user s' j = stored_user s j)
  /\
  post_table s' = post_table s.
Proof.
  intros Himpl Hu. apply update_user_impls_eq in Himpl as ->.
  cbv zeta. rewrite update_user_eq, Hu. cbv zeta.
  pose proof (find_key User.id _ _ _ Hu) as Hid.
  set (u' := overwrite_user name email age u).
  assert (Hok : negb (String.eqb (User.email u') (User.email u)) &&
                email_in_use_elsewhere s u (User.email u') = false ->
                (if negb (String.eqb (User.email u') (User.email u)) &&
                    email_in_use_elsewhere s u (User.email u')
                 then (Raise (A := UserType.t)
                         (IntegrityError
                            "UNIQUE constraint failed: user.email"), s)
                 else (Ok (user_type u'),
                       mk_store (replace_user u u' (user_table s))
                                (post_table s)))
                = (Ok (user_type u'),
                   mk_store (replace_user u u' (user_table s))
                            (post_table s))).
  { intros ->. reflexivity. }
  split; [|split; [|split; [|split; [|split]]]].
  - intros Hfree. rewrite Hok.
    + split; [reflexivity|]. now apply stored_user_replace_same.
    + destruct email as [e|]; cbn.
      * destruct (String.eqb_spec e (User.email u)) as [|Hne];
          [reflexivity|]. cbn. now apply Hfree.
      * now rewrite String.eqb_refl.
  - intros e He Hne Hused.
    assert (negb (String.eqb (User.email u') (User.email u)) &&
            email_in_use_elsewhere s u (User.email u') = true) as ->.
    { subst u' email. cbn [overwrite_user User.email supplied].
      rewrite Hused. apply String.eqb_neq in Hne. now rewrite Hne. }
    cbn [snd]. repeat split. exact Hu.
  - intros a -> -> ->. rewrite Hok.
    + repeat split; try reflexivity. now apply stored_user_replace_same.
    + cbn. now rewrite String.eqb_refl.
  - pose proof (update_user_frame id name email age s u Hu) as Hframe.
    rewrite update_user_eq, Hu in Hframe. exact Hframe.
  - intros j Hj. destruct (negb _ && _); [reflexivity|]. cbn [snd].
    apply stored_user_replace_other; [reflexivity | lia].
  - destruct (negb _ && _); reflexivity.
Qed.

Lemma update_user_overwrites_supplied_fields_witness :
  (fst (Mutation.update_user 2 (Some "Robert") (Some "rob@example.com") None
                             two_users)
   = Ok (UserType.mk 2 "Robert" "rob@example.com" None "2024-01-15T10:30:00")
   /\
   stored_user
     (snd (Mutation.update_user 2 (Some "Robert") (Some "rob@example.com")
                                None two_users)) 2
   = Some (User.mk 2 "Robert" "rob@example.com" None t0))
  /\
  (Mutation.update_user 2 (Some "Robert") (Some "alice@example.com")
                        (Some 44) two_users
   = (Raise (IntegrityError "UNIQUE constraint failed: user.email"),
      two_users) /\
   snd (Mutation.update_user 2 (Some "Robert") (Some "alice@example.com")
                             (Some 44) two_users) = two_users /\
   stored_user
     (snd (Mutation.update_user 2 (Some "Robert") (Some "alice@example.com")
                                (Some 44) two_users)) 2
   = Some bob).
Proof.
  split.
  - refine (proj1 (update_user_overwrites_supplied_fields
                     Mutation.update_user 2 (Some "Robert")
                     (Some "rob@example.com") None two_users bob _ _) _).
    + simpl. auto.
    + reflexivity.
    + intros e He _. injection He as <-. reflexivity.
  - refine (proj1 (proj2 (update_user_overwrites_supplied_fields
                            Mutation.update_user 2 (Some "Robert")
                            (Some "alice@example.com") (Some 44)
                            two_users bob _ _))
              "alice@example.com" _ _ _).
    + simpl. auto.
    + reflexivity.
    + reflexivity.
    + discriminate.
    + reflexivity.
Defined.

(** C3, the claim as stated fails: bob is stored with id 2, and
    updateUser(2, email="alice@example.com") supplies an email
    explicitly; alice holds that email, the commit is refused by the
    unique index, and the stored email of bob is not overwritten. *)
Lemma update_user_supplied_email_not_overwritten :
  stored_user two_users 2 = Some bob /\
  Mutation.update_user 2 None (Some "alice@example.com") None two_users
  = (Raise (IntegrityError "UNIQUE constraint failed: user.email"),
     two_users) /\
  stored_user
    (snd (Mutation.update_user 2 None (Some "alice@example.com") None
                               two_users)) 2
  <> Some (overwrite_user None (Some "alice@example.com") None bob).
Proof.
  split; [reflexivity|]. split; [reflexivity|].
  vm_compute. discriminate.
Qed.

(** C8, amended. updateUser never fails with DuplicateEmail, in
    main.py and in resolvers.py alike, and makes no check of its own on
    the email.  For a stored user [u] and a supplied email [e]: when [e]
    differs from the email of [u] and is the email of another stored
    user, the commit is refused by the unique index of the store, the
    call raises that integrity error and the store is unchanged;
    otherwise the call succeeds and the stored email of the user is
    [e]. *)
Theorem update_user_never_duplicate_email
  (impl : Z -> option string -> option string -> option Z ->
          Session UserType.t)
  (id : Z) (name email : option string) (age : option Z) (s : store) :
  In impl update_user_impls ->
  ~ fails_with (fst (impl id name email age s)) DuplicateEmail
  /\
  (forall u e,
     stored_user s id = Some u -> email = Some e ->
     (e <> User.email u -> email_in_use_elsewhere s u e = true ->
      impl id name email age s
      = (Raise (IntegrityError "UNIQUE constraint failed: user.email"), s))
     /\
     (e = User.email u \/ email_in_use_elsewhere s u e = false ->
      exists v,
        fst (impl id name email age s) = Ok (user_type v) /\
        stored_user (snd (impl id name email age s)) id = Some v /\
        User.email v = e)).
Proof.
  intros Himpl. apply update_user_impls_eq in Himpl as ->.
  rewrite update_user_eq. split.
  - intros (x & Hx & Hk).
    destruct (stored_user s id) as [u|].
    + cbv zeta in Hx. destruct (negb _ && _); cbn in Hx.
      * injection Hx as <-. discriminate.
      * discriminate.
    + cbn in Hx. injection Hx as <-. discriminate.
  - intros u e Hu ->. rewrite Hu. cbv zeta. cbn [overwrite_user User.email
      supplied]. split.
    + intros Hne Hused. rewrite Hused.
      apply String.eqb_neq in Hne. rewrite Hne. reflexivity.
    + intros Hfree.
      assert (negb (String.eqb e (User.email u)) &&
              email_in_use_elsewhere s u e = false) as ->.
      { destruct Hfree as [->| ->].
        - now rewrite String.eqb_refl.
        - apply andb_false_r. }
      eexists. split; [reflexivity|]. cbn [snd]. split.
      * apply stored_user_replace_same; [exact Hu | reflexivity].
      * reflexivity.
Qed.

Lemma update_user_never_duplicate_email_witness :
  ~ fails_with
      (fst (Mutation.update_user 1 None (Some "bob@example.com") None blog))
      DuplicateEmail /\
  Mutation.update_user 1 None (Some "bob@example.com") None blog
  = (Raise (IntegrityError "UNIQUE constraint failed: user.email"), blog) /\
  exists v,
    fst (UserMutation.update_user
           1 (UserUpdateInput.mk None (Some "al@example.com") None) blog)
    = Ok (user_type v) /\
    stored_user
      (snd (UserMutation.update_user
              1 (UserUpdateInput.mk None (Some "al@example.com") None) blog))
      1 = Some v /\
    User.email v = "al@example.com".
Proof.
  split; [|split].
  - refine (proj1 (update_user_never_duplicate_email
                     Mutation.update_user 1 None (Some "bob@example.com")
                     None blog _)).
    simpl. auto.
  - refine (proj1 (proj2 (update_user_never_duplicate_email
                            Mutation.update_user 1 None
                            (Some "bob@example.com") None blog _)
                         alice "bob@example.com" _ _) _ _).
    + simpl. auto.
    + reflexivity.
    + reflexivity.
    + discriminate.
    + reflexivity.
  - refine (proj2 (proj2 (update_user_never_duplicate_email
                            (fun id name email age =>
                               UserMutation.update_user
                                 id (UserUpdateInput.mk name email age))
                            1 None (Some "al@example.com") None blog _)
                         alice "al@example.com" _ _) _).
    + simpl. auto.
    + reflexivity.
    + reflexivity.
    + right. reflexivity.
Defined.

(** C8, the claim as stated fails: on the store [blog], where bob holds
    "bob@example.com", updateUser(1, email="bob@example.com") does not
    go on to overwrite the email of alice: the call raises the store's
    integrity error and alice keeps her email. *)
Lemma update_user_taken_email_not_overwritten :
  exists v,
    stored_user
      (snd (Mutation.update_user 1 None (Some "bob@example.com") None blog))
      1 = Some v /\
    User.email v = "alice@example.com" /\
    User.email v <> "bob@example.com" /\
    fst (Mutation.update_user 1 None (Some "bob@example.com") None blog)
    = Raise (IntegrityError "UNIQUE constraint failed: user.email").
Proof.
  exists alice. repeat split; try reflexivity. discriminate.
Qed.

(** ** deleteUser and the user query *)

Lemma find_filter_removed {A} (key : A -> Z) (rows : list A) (id : Z) :
  List.find (fun r => key r =? id)
            (List.filter (fun r => negb (key r =? id)) rows) = None.
Proof.
  induction rows as [|r rows IH]; simpl; [reflexivity|].
  destruct (key r =? id) eqn:E; simpl; [exact IH|]. now rewrite E.
Qed.

Lemma find_filter_other {A} (key : A -> Z) (rows : list A) (id j : Z) :
  j <> id ->
  List.find (fun r => key r =? j)
            (List.filter (fun r => negb (key r =? id)) rows)
  = List.find (fun r => key r =? j) rows.
Proof.
  intros Hne. induction rows as [|r rows IH]; simpl; [reflexivity|].
  destruct (key r =? id) eqn:E; simpl.
  - apply Z.eqb_eq in E.
    replace (key r =? j) with false by (symmetry; apply Z.eqb_neq; lia).
    exact IH.
  - destruct (key r =? j); [reflexivity | exact IH].
Qed.

(** What [Mutation.delete_user] computes. *)
Lemma delete_user_eq id s :
  Mutation.delete_user id s =
  match stored_user s id with
  | None => (Raise (Exception "User not found"), s)
  | Some u =>
      if owns_posts s u
      then (Raise (IntegrityError
                     "NOT NULL constraint failed: post.author_id"), s)
      else (Ok true,
            mk_store (List.filter (fun v => negb (User.id v =? User.id u))
                                  (user_table s))
                     (post_table s))
  end.
Proof.
  unfold Mutation.delete_user, stored_user, bind, get_user.
  destruct (List.find _ (user_table s)) as [u|]; [|reflexivity].
  unfold delete_user_row, owns_posts.
  destruct (existsb _ _); reflexivity.
Qed.

Lemma user_query_eq id s :
  Query.user id s = (Ok (option_map user_type (stored_user s id)), s).
Proof.
  unfold Query.user, stored_user, bind, get_user.
  destruct (List.find _ (user_table s)); reflexivity.
Qed.

(** C7, amended. deleteUser fails with NotFound exactly when the id
    names no stored user.  When it names a stored user who owns no post,
    the call returns true and removes that user, and no other row.  When
    the user still owns a post the commit is refused by the store and
    nothing is removed.  The user query returns null, and no error, for
    every id that names no stored user, in particular after a successful
    deleteUser of that id. *)
Theorem delete_user_not_found_or_removed (id : Z) (s : store) :
  let s' := snd (Mutation.delete_user id s) in
  (fails_with (fst (Mutation.delete_user id s)) NotFound <->
   stored_user s id = None)
  /\
  (forall u, stored_user s id = Some u -> owns_posts s u = false ->
     fst (Mutation.delete_user id s) = Ok true /\
     stored_user s' id = None /\
     (forall j, j <> id -> stored_user s' j = stored_user s j) /\
     post_table s' = post_table s)
  /\
  (forall u, stored_user s id = Some u -> owns_posts s u = true ->
     Mutation.delete_user id s
     = (Raise (IntegrityError "NOT NULL constraint failed: post.author_id"),
        s))
  /\
  (stored_user s id = None -> Query.user id s = (Ok None, s))
  /\
  (fst (Mutation.delete_user id s) = Ok true ->
   Query.user id s' = (Ok None, s')).
Proof.
  cbv zeta. rewrite delete_user_eq.
  destruct (stored_user s id) as [u|] eqn:Hu.
  - pose proof (find_key User.id _ _ _ Hu) as Hid.
    assert (Hgone :
      stored_user
        (mk_store (List.filter (fun v => negb (User.id v =? User.id u))
                               (user_table s)) (post_table s)) id = None).
    { unfold stored_user. cbn [user_table]. rewrite Hid.
      apply find_filter_removed. }
    split; [|split; [|split; [|split]]].
    + split; [|discriminate].
      intros (e & He & Hk). destruct (owns_posts s u); cbn in He.
      * injection He as <-. discriminate.
      * discriminate.
    + intros v Hv Hown. injection Hv as <-. rewrite Hown. cbn [fst snd].
      split; [reflexivity|]. split; [exact Hgone|]. split; [|reflexivity].
      intros j Hj. unfold stored_user. cbn [user_table]. rewrite Hid.
      now apply find_filter_other.
    + intros v Hv Hown. injection Hv as <-. now rewrite Hown.
    + discriminate.
    + destruct (owns_posts s u); cbn [fst snd]; [discriminate|].
      intros _. rewrite user_query_eq, Hgone. reflexivity.
  - split; [|split; [|split; [|split]]]; try discriminate.
    + split; [reflexivity|]. intros _. eexists. split; reflexivity.
    + intros _. rewrite user_query_eq, Hu. reflexivity.
Qed.

Lemma delete_user_not_found_or_removed_witness :
  (fst (Mutation.delete_user 2 blog) = Ok true /\
   stored_user (snd (Mutation.delete_user 2 blog)) 2 = None /\
   (forall j, j <> 2 ->
      stored_user (snd (Mutation.delete_user 2 blog)) j
      = stored_user blog j) /\
   post_table (snd (Mutation.delete_user 2 blog)) = post_table blog) /\
  Query.user 7 blog = (Ok None, blog) /\
  Query.user 2 (snd (Mutation.delete_user 2 blog))
  = (Ok None, snd (Mutation.delete_user 2 blog)).
Proof.
  split; [|split].
  - refine (proj1 (proj2 (delete_user_not_found_or_removed 2 blog)) bob _ _);
      reflexivity.
  - refine (proj1 (proj2 (proj2 (proj2
              (delete_user_not_found_or_removed 7 blog)))) _).
    reflexivity.
  - refine (proj2 (proj2 (proj2 (proj2
              (delete_user_not_found_or_removed 2 blog)))) _).
    reflexivity.
Defined.

(** C7, the claim as stated fails: alice is stored in [blog] with id 1
    and owns its post; deleteUser(1) neither fails with NotFound nor
    removes her and returns true. *)
Lemma delete_user_with_posts_refused :
  stored_user blog 1 = Some alice /\
  ~ fails_with (fst (Mutation.delete_user 1 blog)) NotFound /\
  fst (Mutation.delete_user 1 blog) <> Ok true /\
  stored_user (snd (Mutation.delete_user 1 blog)) 1 = Some alice.
Proof.
  split; [reflexivity|]. split; [|split; [|reflexivity]].
  - intros (e & He & Hk). vm_compute in He. injection He as <-.
    discriminate.
  - vm_compute. discriminate.
Qed.

(** ** Queries do not write *)

Create HintDb read_only.

Lemma read_only_ret {A} (a : A) : read_only (ret a).
Proof. intros s. reflexivity. Qed.

Lemma read_only_raise {A} (e : exn) : read_only (raise (A := A) e).
Proof. intros s. reflexivity. Qed.

Lemma read_only_bind {A B} (m : Session A) (k : A -> Session B) :
  read_only m -> (forall a, read_only (k a)) -> read_only (bind m k).
Proof.
  intros Hm Hk s. unfold bind. specialize (Hm s).
  destruct (m s) as [[a|e] s1]; cbn in Hm; subst s1.
  - apply Hk.
  - reflexivity.
Qed.

Lemma read_only_for_each {A B} (f : A -> Session B) (l : list A) :
  (forall x, read_only (f x)) -> read_only (for_each f l).
Proof.
  intros Hf. induction l as [|x l IH]; simpl.
  - apply read_only_ret.
  - apply read_only_bind; [apply Hf|]. intros y.
    apply read_only_bind; [exact IH|]. intros ys. apply read_only_ret.
Qed.

Lemma read_only_get_user id : read_only (get_user id).
Proof. intros s. reflexivity. Qed.

Lemma read_only_get_post id : read_only (get_post id).
Proof. intros s. reflexivity. Qed.

Lemma read_only_select_users offset limit :
  read_only (select_users offset limit).
Proof. intros s. reflexivity. Qed.

Lemma read_only_select_posts offset limit :
  read_only (select_posts offset limit).
Proof. intros s. reflexivity. Qed.

Lemma read_only_attr_of_author p : read_only (attr_of_author p).
Proof.
  unfold attr_of_author, author. apply read_only_bind.
  - apply read_only_get_user.
  - intros [u|]; [apply read_only_ret | apply read_only_raise].
Qed.

#[local] Hint Resolve read_only_ret read_only_raise read_only_get_user
  read_only_get_post read_only_select_users read_only_select_posts
  read_only_attr_of_author : read_only.

Ltac read_only_step :=
  cbv beta;
  first
    [ solve [auto with read_only]
    | apply read_only_for_each; intros ?
    | match goal with
      | |- read_only (match ?x with _ => _ end) => destruct x
      end
    | apply read_only_bind; [| intros ?] ].

Lemma read_only_Query_users limit offset :
  read_only (Query.users limit offset).
Proof. unfold Query.users. repeat read_only_step. Qed.

Lemma read_only_Query_user id : read_only (Query.user id).
Proof. unfold Query.user. repeat read_only_step. Qed.

Lemma read_only_Query_posts limit offset :
  read_only (Query.posts limit offset).
Proof. unfold Query.posts. repeat read_only_step. Qed.

Lemma read_only_Query_post id : read_only (Query.post id).
Proof. unfold Query.post. repeat read_only_step. Qed.

Lemma read_only_PostResolver_posts limit offset :
  read_only (PostResolver.posts limit offset).
Proof. unfold PostResolver.posts. repeat read_only_step. Qed.

(** C10. Every query resolver leaves the store unchanged, for every
    store and every arguments: the five query fields of the schema of
    main.py (hello, users, user, posts, post), and the query resolvers
    of resolvers.py. *)
Theorem queries_leave_store_unchanged (s : store) :
  (forall q, snd (Schema.execute_query q s) = s) /\
  (forall limit offset, snd (Query.users limit offset s) = s) /\
  (forall id, snd (Query.user id s) = s) /\
  (forall limit offset, snd (Query.posts limit offset s) = s) /\
  (forall id, snd (Query.post id s) = s) /\
  (forall limit offset, snd (UserResolver.users limit offset s) = s) /\
  (forall id, snd (UserResolver.user id s) = s) /\
  (forall limit offset, snd (PostResolver.posts limit offset s) = s).
Proof.
  repeat apply conj; intros.
  - revert s. change (read_only (Schema.execute_query q)).
    destruct q; cbn [Schema.execute_query].
    + apply read_only_ret.
    + apply read_only_bind; [apply read_only_Query_users|].
      intros ?. apply read_only_ret.
    + apply read_only_bind; [apply read_only_Query_user|].
      intros ?. apply read_only_ret.
    + apply read_only_bind; [apply read_only_Query_posts|].
      intros ?. apply read_only_ret.
    + apply read_only_bind; [apply read_only_Query_post|].
      intros ?. apply read_only_ret.
  - apply read_only_Query_users.
  - apply read_only_Query_user.
  - apply read_only_Query_posts.
  - apply read_only_Query_post.
  - apply read_only_Query_users.
  - apply read_only_Query_user.
  - apply read_only_PostResolver_posts.
Qed.

(** ** The count subscription *)

Lemma drain_from (n : nat) :
  forall (g : Subscription.generator) (fuel : nat),
    Z.to_nat (Subscription.stop g - Subscription.next g) = n ->
    (n <= fuel)%nat ->
    Subscription.drain fuel g
    = Some (paced (map (fun k => Subscription.next g + Z.of_nat k)
                       (seq 0 n))).
Proof.
  induction n as [|n IH]; intros g fuel Hn Hfuel.
  - assert (Subscription.resume g = None) as Hr.
    { unfold Subscription.resume.
      destruct (Z.ltb_spec (Subscription.next g) (Subscription.stop g));
        [lia | reflexivity]. }
    destruct fuel; simpl; rewrite Hr; reflexivity.
  - destruct fuel as [|fuel]; [lia|].
    simpl. unfold Subscription.resume.
    destruct (Z.ltb_spec (Subscription.next g) (Subscription.stop g));
      [|lia].
    rewrite (IH _ fuel); cbn [Subscription.next Subscription.stop];
      [|lia|lia].
    f_equal. cbn [paced flat_map app map]. rewrite Z.add_0_r.
    do 2 f_equal. rewrite <- seq_shift, map_map.
    unfold paced. f_equal. apply map_ext. intros k. lia.
Qed.

Lemma emitted_paced (values : list Z) :
  Subscription.emitted (paced values) = values.
Proof.
  induction values as [|v values IH]; simpl; [reflexivity|].
  now rewrite IH.
Qed.

(** C5. For every target, the count subscription completes after
    [target] resumptions (none when target <= 0), having emitted exactly
    0, 1, ..., target-1 in increasing order, each value followed by the
    one-second delay; more fuel changes nothing.  For target = 3 the
    values are exactly 0, 1, 2. *)
Theorem count_emits_upto_target (target : Z) (extra : nat) :
  Subscription.drain (Z.to_nat target + extra) (Subscription.count target)
  = Some (paced (upto target)) /\
  Subscription.emitted (paced (upto target)) = upto target /\
  length (upto target) = Z.to_nat target /\
  (forall k, (k < Z.to_nat target)%nat ->
             nth_error (upto target) k = Some (Z.of_nat k)) /\
  Subscription.drain 3 (Subscription.count 3)
  = Some (paced [0; 1; 2]).
Proof.
  split; [|split; [|split; [|split]]].
  - rewrite (drain_from (Z.to_nat target)).
    + cbn [Subscription.count Subscription.next]. reflexivity.
    + cbn. f_equal. lia.
    + lia.
  - apply emitted_paced.
  - unfold upto. now rewrite length_map, length_seq.
  - intros k Hk. unfold upto. rewrite nth_error_map.
    rewrite nth_error_nth' with (d := 0%nat) by now rewrite length_seq.
    rewrite seq_nth by exact Hk. reflexivity.
  - reflexivity.
Qed.

Lemma count_emits_upto_target_witness :
  Subscription.drain 3 (Subscription.count 3)
  = Some [Subscription.Yield 0; Subscription.Sleep 1;
          Subscription.Yield 1; Subscription.Sleep 1;
          Subscription.Yield 2; Subscription.Sleep 1] /\
  nth_error (upto 3) 2 = Some 2.
Proof.
  split.
  - exact (proj1 (count_emits_upto_target 3 0)).
  - refine (proj1 (proj2 (proj2 (proj2 (count_emits_upto_target 3 0)))) 2%nat _).
    vm_compute. lia.
Defined.

(** ** Explicit null in the update mutations *)

Lemma snd_bind_ret {A B} (m : Session A) (f : A -> B) (s : store) :
  snd (bind m (fun v => ret (f v)) s) = snd (m s).
Proof. unfold bind, ret. destruct (m s) as [[a|e] s1]; reflexivity. Qed.

Lemma argument_null_as_omitted {A} (x : gql_arg A) :
  argument None (null_as_omitted x) = argument None x.
Proof. destruct x; reflexivity. Qed.

(** One updateUser call, on whatever id, keeps a stored user stored and
    keeps a non-null age non-null. *)
Lemma update_user_age_not_cleared (id j : Z) name email age s u a :
  stored_user s id = Some u -> User.age u = Some a ->
  exists v b,
    stored_user (snd (Mutation.update_user j name email age s)) id = Some v /\
    User.age v = Some b.
Proof.
  intros Hu Ha. rewrite update_user_eq.
  destruct (stored_user s j) as [w|] eqn:Hw; [|now exists u, a].
  cbv zeta. pose proof (find_key User.id _ _ _ Hw) as Hk.
  destruct (negb _ && _); cbn [snd]; [now exists u, a|].
  destruct (Z.eq_dec j id) as [->|Hne].
  - assert (w = u) as -> by congruence.
    exists (overwrite_user name email age u).
    exists (match age with Some x => x | None => a end).
    split; [now apply stored_user_replace_same|].
    cbn. destruct age; [reflexivity | exact Ha].
  - exists u, a. split; [|exact Ha].
    rewrite stored_user_replace_other; [exact Hu | reflexivity | lia].
Qed.

Lemma update_post_keeps_users id title content s :
  user_table (snd (Mutation.update_post id title content s)) = user_table s.
Proof.
  rewrite update_post_eq. destruct (stored_post s id); [|reflexivity].
  cbv zeta. destruct (stored_user s _); reflexivity.
Qed.

Lemma update_age_not_cleared now m s id u a :
  Schema.is_update m = true ->
  stored_user s id = Some u -> User.age u = Some a ->
  exists v b,
    stored_user (snd (Schema.execute_mutation now m s)) id = Some v /\
    User.age v = Some b.
Proof.
  intros Hm Hu Ha. destruct m; try discriminate;
    cbn [Schema.execute_mutation]; rewrite snd_bind_ret.
  - now apply update_user_age_not_cleared with (u := u) (a := a).
  - exists u, a. split; [|exact Ha].
    unfold stored_user. now rewrite update_post_keeps_users.
Qed.

(** C9. In updateUser and updatePost an explicit null is
    indistinguishable from leaving the argument out: the two requests
    have the same outcome and leave the same store.  In updateUser
    every one of name, email and age that is null (or left out) keeps
    its stored value, and in updatePost every one of title and content
    that is null (or left out) keeps its stored value, whatever the
    other arguments are.  No sequence of update calls clears a non-null
    age of a stored user back to null. *)
Theorem explicit_null_is_omission (now : datetime) (s : store) :
  (forall id name email age,
     Schema.execute_mutation now (Schema.updateUser id name email age) s
     = Schema.execute_mutation now
         (Schema.updateUser id (null_as_omitted name)
                            (null_as_omitted email) (null_as_omitted age)) s)
  /\
  (forall id title content,
     Schema.execute_mutation now (Schema.updatePost id title content) s
     = Schema.execute_mutation now
         (Schema.updatePost id (null_as_omitted title)
                            (null_as_omitted content)) s)
  /\
  (forall id name email age u,
     stored_user s id = Some u ->
     exists v,
       stored_user
         (snd (Schema.execute_mutation now
                 (Schema.updateUser id name email age) s)) id = Some v /\
       (name = Null \/ name = Omitted -> User.name v = User.name u) /\
       (email = Null \/ email = Omitted -> User.email v = User.email u) /\
       (age = Null \/ age = Omitted -> User.age v = User.age u))
  /\
  (forall id title content p,
     stored_post s id = Some p ->
     exists q,
       stored_post
         (snd (Schema.execute_mutation now
                 (Schema.updatePost id title content) s)) id = Some q /\
       (title = Null \/ title = Omitted -> Post.title q = Post.title p) /\
       (content = Null \/ content = Omitted ->
        Post.content q = Post.content p))
  /\
  (forall requests id u a,
     forallb (fun r => Schema.is_update (snd r)) requests = true ->
     stored_user s id = Some u -> User.age u = Some a ->
     exists v b,
       stored_user (Schema.execute_all requests s) id = Some v /\
       User.age v = Some b).
Proof.
  repeat apply conj.
  - intros. cbn [Schema.execute_mutation].
    now rewrite !argument_null_as_omitted.
  - intros. cbn [Schema.execute_mutation].
    now rewrite !argument_null_as_omitted.
  - intros id name email age u Hu. cbn [Schema.execute_mutation].
    rewrite snd_bind_ret.
    destruct (update_user_frame id (argument None name)
                (argument None email) (argument None age) s u Hu)
      as (v & Hv & _ & _ & Hname & Hemail & Hage).
    exists v. split; [exact Hv|].
    repeat split; intros [->| ->]; auto.
  - intros id title content p Hp. cbn [Schema.execute_mutation].
    rewrite snd_bind_ret.
    rewrite (update_post_stores id _ _ s p Hp).
    eexists. split; [reflexivity|].
    split; intros [->| ->]; reflexivity.
  - intros requests. revert s.
    induction requests as [|[t m] requests IH]; intros s id u a Hms Hu Ha.
    + now exists u, a.
    + cbn in Hms. apply andb_true_iff in Hms as [Hm Hms].
      destruct (update_age_not_cleared t m s id u a Hm Hu Ha)
        as (v & b & Hv & Hb).
      cbn [Schema.execute_all]. now apply (IH _ id v b).
Qed.

Lemma explicit_null_is_omission_witness :
  (exists v,
     stored_user
       (snd (Schema.execute_mutation
               t1 (Schema.updateUser 1 Null Null Null) blog)) 1 = Some v /\
     User.name v = "Alice" /\
     User.email v = "alice@example.com" /\
     User.age v = Some 30)
  /\
  (exists q,
     stored_post
       (snd (Schema.execute_mutation
               t1 (Schema.updatePost 1 Null (Given "Edited")) blog)) 1
     = Some q /\
     Post.title q = "Old title")
  /\
  (exists v b,
     stored_user
       (Schema.execute_all
          [(t0, Schema.updateUser 1 (Given "Al") Null Null);
           (t1, Schema.updatePost 1 Null (Given "Edited"));
           (t1, Schema.updateUser 2 Omitted Omitted (Given 52))]
          blog) 1 = Some v /\
     User.age v = Some b).
Proof.
  split; [|split].
  - destruct (proj1 (proj2 (proj2 (explicit_null_is_omission t1 blog)))
                1 Null Null Null alice eq_refl)
      as (v & Hv & Hname & Hemail & Hage).
    exists v. split; [exact Hv|].
    split; [apply Hname; left; reflexivity|].
    split; [apply Hemail | apply Hage]; left; reflexivity.
  - destruct (proj1 (proj2 (proj2 (proj2
                (explicit_null_is_omission t1 blog))))
                1 Null (Given "Edited") first_post eq_refl)
      as (q & Hq & Htitle & _).
    exists q. split; [exact Hq|]. apply Htitle. left. reflexivity.
  - refine (proj2 (proj2 (proj2 (proj2 (explicit_null_is_omission t1 blog))))
              _ 1 alice 30 _ _ _); reflexivity.
Defined.

(** ** The posts query *)

Lemma ascending_head_lt (i : Z) (rest : list Z) :
  ascending (i :: rest) = true -> forall j, In j rest -> i < j.
Proof.
  revert i. induction rest as [|k rest IH]; intros i H j Hj; [destruct Hj|].
  cbn in H. apply andb_true_iff in H as [Hik Hrest].
  apply Z.ltb_lt in Hik. destruct Hj as [<-|Hj]; [exact Hik|].
  specialize (IH k Hrest j Hj). lia.
Qed.

Lemma ascending_tail (i : Z) (rest : list Z) :
  ascending (i :: rest) = true -> ascending rest = true.
Proof.
  destruct rest as [|k rest]; [reflexivity|]. cbn.
  intros H. now apply andb_true_iff in H as [_ H].
Qed.

(** In a table whose keys ascend, a row is found under its own key. *)
Lemma find_own_key {A} (key : A -> Z) (rows : list A) (r : A) :
  ascending (map key rows) = true -> In r rows ->
  List.find (fun x => key x =? key r) rows = Some r.
Proof.
  induction rows as [|x rows IH]; intros Hasc Hin; [destruct Hin|].
  cbn [map] in Hasc. simpl.
  destruct Hin as [->|Hin].
  - now rewrite Z.eqb_refl.
  - pose proof (ascending_head_lt _ _ Hasc (key r) (in_map key _ _ Hin)).
    replace (key x =? key r) with false by (symmetry; apply Z.eqb_neq; lia).
    apply IH; [|exact Hin]. now apply ascending_tail in Hasc.
Qed.

Lemma existsb_find_key {A} (key : A -> Z) (rows : list A) (id : Z) :
  existsb (fun x => key x =? id) rows = true ->
  exists a, List.find (fun x => key x =? id) rows = Some a.
Proof.
  induction rows as [|x rows IH]; simpl; [discriminate|].
  destruct (key x =? id); [now exists x | exact IH].
Qed.

Lemma in_offset_limit {A} (offset limit : option Z) (rows : list A) (x : A) :
  In x (offset_limit offset limit rows) -> In x rows.
Proof.
  unfold offset_limit. intros H.
  assert (forall n (l : list A), In x (drop n l) -> In x l) as Hdrop.
  { intros n. induction n as [|n IH]; intros [|y l]; simpl; auto. }
  assert (forall n (l : list A), In x (take n l) -> In x l) as Htake.
  { intros n. induction n as [|n IH]; intros [|y l]; simpl; auto.
    - intros [].
    - intros [->|Hx]; auto. }
  destruct limit as [l|], offset as [o|];
    try destruct (l <? 0); eauto.
Qed.

(** A loop whose body reads only, and succeeds on every element,
    returns one value per element, in order. *)
Lemma for_each_Forall2 {A B} (f : A -> Session B) (R : B -> A -> Prop)
      (l : list A) (s : store) :
  (forall x, In x l -> exists y, f x s = (Ok y, s) /\ R y x) ->
  exists ys, for_each f l s = (Ok ys, s) /\ Forall2 R ys l.
Proof.
  induction l as [|x l IH]; intros H.
  - exists []. split; [reflexivity | constructor].
  - destruct (H x (or_introl eq_refl)) as (y & Hy & Hr).
    destruct IH as (ys & Hys & Hall).
    { intros z Hz. apply H. now right. }
    exists (y :: ys). split; [|now constructor].
    simpl. unfold bind. rewrite Hy, Hys. reflexivity.
Qed.

(** The two forms of the posts query. *)
Lemma posts_impls_body impl offset limit s :
  In impl posts_impls ->
  well_formed s = true ->
  exists page,
    impl limit offset s = (Ok page, s) /\
    Forall2 (fun r p =>
               exists a, stored_user s (Post.author_id p) = Some a /\
                         r = post_type p a)
            page (offset_limit offset limit (post_table s)).
Proof.
  intros Himpl Hwf. unfold well_formed in Hwf.
  apply andb_true_iff in Hwf as [Hwf Hauth].
  apply andb_true_iff in Hwf as [Hwf _].
  apply andb_true_iff in Hwf as [_ Hposts].
  assert (Hauthor : forall p, In p (post_table s) ->
            exists a, stored_user s (Post.author_id p) = Some a).
  { intros p Hp. unfold authors_stored in Hauth.
    rewrite forallb_forall in Hauth.
    apply (existsb_find_key User.id). now apply Hauth. }
  destruct Himpl as [<-|[<-|[]]].
  - unfold Query.posts, bind, select_posts.
    apply for_each_Forall2. intros p Hp. apply in_offset_limit in Hp.
    destruct (Hauthor p Hp) as (a & Ha).
    exists (post_type p a). split; [|now exists a].
    unfold bind, get_post. rewrite (find_own_key Post.id _ _ Hposts Hp).
    unfold attr_of_author, author, bind, get_user. unfold stored_user in Ha.
    rewrite Ha. reflexivity.
  - unfold PostResolver.posts, bind, select_posts.
    apply for_each_Forall2. intros p Hp. apply in_offset_limit in Hp.
    destruct (Hauthor p Hp) as (a & Ha).
    exists (post_type p a). split; [|now exists a].
    unfold attr_of_author, author, bind, get_user. unfold stored_user in Ha.
    rewrite Ha. reflexivity.
Qed.

(** C4, amended. On every store that meets the constraints of the
    schema, and for both forms of the posts query: for every
    non-negative limit and every offset the query returns, without
    writing, the posts that remain after skipping the first [offset]
    posts of the table (in id-ascending order; none for a negative
    offset) and keeping at most [limit] of them, each with its stored
    author embedded in full; over five posts with
    ids 1..5, posts(limit=2, offset=1) returns exactly the posts with
    ids 2 and 3, each with its author. *)
Theorem posts_page_with_authors
  (impl : option Z -> option Z -> Session (list PostType.t)) (s : store) :
  In impl posts_impls ->
  well_formed s = true ->
  (forall limit offset, 0 <= limit ->
   exists page,
     impl (Some limit) (Some offset) s = (Ok page, s) /\
     Z.of_nat (length page) <= limit /\
     Forall2 (fun r p =>
                exists a, stored_user s (Post.author_id p) = Some a /\
                          r = post_type p a)
             page
             (take (Z.to_nat limit) (drop (Z.to_nat offset) (post_table s))))
  /\
  (map Post.id (post_table s) = [1; 2; 3; 4; 5] ->
   exists p2 p3 a2 a3,
     impl (Some 2) (Some 1) s
     = (Ok [post_type p2 a2; post_type p3 a3], s) /\
     In p2 (post_table s) /\ Post.id p2 = 2 /\
     In p3 (post_table s) /\ Post.id p3 = 3 /\
     stored_user s (Post.author_id p2) = Some a2 /\
     stored_user s (Post.author_id p3) = Some a3).
Proof.
  intros Himpl Hwf. split.
  - intros limit offset Hl.
    destruct (posts_impls_body impl (Some offset) (Some limit) s Himpl Hwf)
      as (page & Hpage & Hall).
    unfold offset_limit in Hall.
    replace (limit <? 0) with false in Hall
      by (symmetry; apply Z.ltb_ge; lia).
    exists page. split; [exact Hpage|]. split; [|exact Hall].
    apply Forall2_length in Hall. rewrite Hall.
    pose proof (firstn_le_length (Z.to_nat limit)
                  (drop (Z.to_nat offset) (post_table s))).
    lia.
  - intros Hids.
    destruct (posts_impls_body impl (Some 1) (Some 2) s Himpl Hwf)
      as (page & Hpage & Hall).
    destruct (post_table s) as [|p1 [|p2 [|p3 [|p4 [|p5 [|]]]]]] eqn:Htable;
      try discriminate.
    cbn in Hids. injection Hids as _ H2 H3 _ _.
    cbn in Hall.
    inversion Hall as [|r2 q2 rest2 l2 (a2 & Ha2 & ->) Hall2]; subst.
    inversion Hall2 as [|r3 q3 rest3 l3 (a3 & Ha3 & ->) Hall3]; subst.
    inversion Hall3; subst.
    exists p2, p3, a2, a3. rewrite Hpage.
    repeat split; auto; simpl; auto.
Qed.

Lemma posts_page_with_authors_witness :
  (exists page,
     Query.posts (Some 2) (Some 1) five_posts = (Ok page, five_posts) /\
     Z.of_nat (length page) <= 2 /\
     Forall2 (fun r p =>
                exists a,
                  stored_user five_posts (Post.author_id p) = Some a /\
                  r = post_type p a)
             page [numbered_post 2 2; numbered_post 3 1]) /\
  exists p2 p3 a2 a3,
    PostResolver.posts (Some 2) (Some 1) five_posts
    = (Ok [post_type p2 a2; post_type p3 a3], five_posts) /\
    In p2 (post_table five_posts) /\ Post.id p2 = 2 /\
    In p3 (post_table five_posts) /\ Post.id p3 = 3 /\
    stored_user five_posts (Post.author_id p2) = Some a2 /\
    stored_user five_posts (Post.author_id p3) = Some a3.
Proof.
  split.
  - refine (proj1 (posts_page_with_authors Query.posts five_posts _ _)
                  2 1 _).
    + simpl. auto.
    + reflexivity.
    + lia.
  - refine (proj2 (posts_page_with_authors PostResolver.posts five_posts
                     _ _) _).
    + simpl. auto.
    + reflexivity.
    + reflexivity.
Defined.

(** C4, the claim as stated fails: a negative limit is no bound at all.
    On [blog], posts(limit=-1, offset=0) returns one post, which is
    more than [limit]. *)
Lemma posts_negative_limit_unbounded :
  exists page,
    Query.posts (Some (-1)) (Some 0) blog = (Ok page, blog) /\
    length page = 1%nat /\
    ~ Z.of_nat (length page) <= -1.
Proof.
  eexists. split; [vm_compute; reflexivity|].
  split; [reflexivity|]. cbn. lia.
Qed.

(** ** The constraints of the schema are kept by every mutation *)

Lemma ascending_cons (i : Z) (l : list Z) :
  ascending (i :: l) = true <->
  (forall j, In j l -> i < j) /\ ascending l = true.
Proof.
  split.
  - intros H. split; [now apply ascending_head_lt | now apply ascending_tail in H].
  - intros [Hlt Hl]. destruct l as [|k l]; [reflexivity|].
    cbn. apply andb_true_iff. split; [|exact Hl].
    apply Z.ltb_lt, Hlt. now left.
Qed.

Lemma ascending_app_last (ids : list Z) (x : Z) :
  ascending ids = true -> (forall i, In i ids -> i < x) ->
  ascending (ids ++ [x]) = true.
Proof.
  induction ids as [|i ids IH]; intros Hasc Hx; [reflexivity|].
  apply ascending_cons in Hasc as [Hlt Hasc].
  cbn [app]. apply ascending_cons. split.
  - intros j Hj. apply in_app_or in Hj as [Hj|[<-|[]]].
    + now apply Hlt.
    + apply Hx. now left.
  - apply IH; [exact Hasc|]. intros j Hj. apply Hx. now right.
Qed.

Lemma ascending_filter {A} (key : A -> Z) (f : A -> bool) (rows : list A) :
  ascending (map key rows) = true ->
  ascending (map key (List.filter f rows)) = true.
Proof.
  induction rows as [|r rows IH]; intros Hasc; [reflexivity|].
  cbn [map] in Hasc. apply ascending_cons in Hasc as [Hlt Hasc].
  simpl. destruct (f r); [|now apply IH].
  cbn [map]. apply ascending_cons. split; [|now apply IH].
  intros j Hj. apply Hlt. apply in_map_iff in Hj as (x & <- & Hx).
  apply filter_In in Hx as [Hx _]. now apply in_map.
Qed.

Lemma map_key_replace {A} (key : A -> Z) (rows : list A) (old new : A) :
  key new = key old ->
  map key (map (fun r => if key r =? key old then new else r) rows)
  = map key rows.
Proof.
  intros Hk. rewrite map_map. apply map_ext. intros r.
  destruct (key r =? key old) eqn:E; [|reflexivity].
  apply Z.eqb_eq in E. congruence.
Qed.

Lemma existsb_eqb_false (x : string) (l : list string) :
  existsb (String.eqb x) l = false <-> ~ In x l.
Proof.
  split.
  - intros H Hin. assert (existsb (String.eqb x) l = true); [|congruence].
    apply existsb_exists. exists x. split; [exact Hin | apply String.eqb_refl].
  - intros H. apply not_true_is_false. intros Hex.
    apply existsb_exists in Hex as (y & Hy & Heq).
    apply String.eqb_eq in Heq. now subst.
Qed.

Lemma distinct_cons (x : string) (l : list string) :
  distinct (x :: l) = true <-> ~ In x l /\ distinct l = true.
Proof.
  cbn. rewrite andb_true_iff, negb_true_iff, existsb_eqb_false. reflexivity.
Qed.

Lemma distinct_app_last (l : list string) (x : string) :
  distinct l = true -> ~ In x l -> distinct (l ++ [x]) = true.
Proof.
  induction l as [|y l IH]; intros Hd Hx; [reflexivity|].
  apply distinct_cons in Hd as [Hy Hd]. cbn [app]. apply distinct_cons.
  split.
  - intros Hin. apply in_app_or in Hin as [Hin|[<-|[]]]; [auto|].
    apply Hx. now left.
  - apply IH; [exact Hd|]. intros Hin. apply Hx. now right.
Qed.

Lemma distinct_filter {A} (key : A -> string) (f : A -> bool)
      (rows : list A) :
  distinct (map key rows) = true ->
  distinct (map key (List.filter f rows)) = true.
Proof.
  induction rows as [|r rows IH]; intros Hd; [reflexivity|].
  cbn [map] in Hd. apply distinct_cons in Hd as [Hr Hd].
  simpl. destruct (f r); [|now apply IH].
  cbn [map]. apply distinct_cons. split; [|now apply IH].
  intros Hin. apply Hr. apply in_map_iff in Hin as (x & <- & Hx).
  apply filter_In in Hx as [Hx _]. now apply in_map.
Qed.

(** A table with ascending keys and distinct emails stays so when the
    row with the key of [u] takes an email that no row with another key
    has. *)
Lemma distinct_replace_user (rows : list User.t) (u u' : User.t) :
  User.id u' = User.id u ->
  ascending (map User.id rows) = true ->
  distinct (map User.email rows) = true ->
  (forall r, In r rows -> User.id r <> User.id u ->
             User.email r <> User.email u') ->
  distinct (map User.email (replace_user u u' rows)) = true.
Proof.
  intros Hid. induction rows as [|x rows IH]; intros Hasc Hd Hfree;
    [reflexivity|].
  cbn [map] in Hasc, Hd.
  apply ascending_cons in Hasc as [Hlt Hasc].
  apply distinct_cons in Hd as [Hx Hd].
  assert (IH' : distinct (map User.email (replace_user u u' rows)) = true).
  { apply IH; auto. intros r Hr. apply Hfree. now right. }
  unfold replace_user in *. cbn [map].
  destruct (User.id x =? User.id u) eqn:E.
  - apply Z.eqb_eq in E. apply distinct_cons. split; [|exact IH'].
    intros Hin. apply in_map_iff in Hin as (y & Hy & Hin).
    apply in_map_iff in Hin as (r & <- & Hr).
    assert (User.id x < User.id r) as Hxr by (apply Hlt; now apply in_map).
    replace (User.id r =? User.id u) with false in Hy
      by (symmetry; apply Z.eqb_neq; lia).
    apply (Hfree r); [now right | lia | exact Hy].
  - apply Z.eqb_neq in E. apply distinct_cons. split; [|exact IH'].
    intros Hin. apply in_map_iff in Hin as (y & Hy & Hin).
    apply in_map_iff in Hin as (r & <- & Hr).
    destruct (User.id r =? User.id u).
    + apply (Hfree x); [now left | exact E | now symmetry].
    + apply Hx. rewrite <- Hy. now apply in_map.
Qed.

Lemma distinct_same_email (rows : list User.t) (r u : User.t) :
  distinct (map User.email rows) = true ->
  In r rows -> In u rows -> User.email r = User.email u -> r = u.
Proof.
  induction rows as [|x rows IH]; intros Hd Hr Hu Heq; [destruct Hr|].
  cbn [map] in Hd. apply distinct_cons in Hd as [Hx Hd].
  destruct Hr as [->|Hr], Hu as [->|Hu]; auto.
  - exfalso. apply Hx. rewrite Heq. now apply in_map.
  - exfalso. apply Hx. rewrite <- Heq. now apply in_map.
Qed.

Lemma well_formed_iff (s : store) :
  well_formed s = true <->
  ascending (map User.id (user_table s)) = true /\
  ascending (map Post.id (post_table s)) = true /\
  distinct (map User.email (user_table s)) = true /\
  authors_stored s = true.
Proof. unfold well_formed. rewrite !andb_true_iff. tauto. Qed.

Lemma has_user_ids (users : list User.t) (k : Z) :
  existsb (fun u => User.id u =? k) users
  = existsb (fun i => i =? k) (map User.id users).
Proof.
  induction users as [|u users IH]; simpl; [reflexivity|]. now rewrite IH.
Qed.

Lemma forallb_filter_true {A} (f g : A -> bool) (l : list A) :
  forallb f l = true -> forallb f (List.filter g l) = true.
Proof.
  rewrite !forallb_forall. intros H x Hx.
  apply filter_In in Hx as [Hx _]. now apply H.
Qed.

(** What the remaining mutations compute. *)
Lemma create_user_eq now user_input s :
  Mutation.create_user now user_input s =
  match List.find (fun u => String.eqb (User.email u)
                                       (UserInput.email user_input))
                  (user_table s) with
  | Some _ => (Raise (Exception "User with this email already exists"), s)
  | None =>
      let u := User.mk (next_rowid (map User.id (user_table s)))
                       (UserInput.name user_input)
                       (UserInput.email user_input)
                       (UserInput.age user_input) now in
      (Ok (user_type u), mk_store (user_table s ++ [u]) (post_table s))
  end.
Proof.
  unfold Mutation.create_user, bind, first_user_by_email.
  destruct (List.find _ (user_table s)) eqn:E; [reflexivity|].
  unfold add_user.
  rewrite (existsb_email_false _ _ (proj1 (find_email_none _ _) E)).
  reflexivity.
Qed.

Lemma create_post_store now post_input s :
  snd (Mutation.create_post now post_input s) =
  match stored_user s (PostInput.author_id post_input) with
  | None => s
  | Some _ =>
      mk_store (user_table s)
               (post_table s ++
                [Post.mk (next_rowid (map Post.id (post_table s)))
                         (PostInput.title post_input)
                         (PostInput.content post_input)
                         (PostInput.author_id post_input) now])
  end.
Proof.
  unfold Mutation.create_post, stored_user, bind, get_user.
  destruct (List.find _ (user_table s)) as [a|] eqn:Ha; [|reflexivity].
  unfold add_post, get_post, attr_of_author, author, bind, get_user, ret,
    raise.
  cbn [user_table post_table Post.id Post.author_id fst snd].
  rewrite (find_app_last _ (post_table s));
    [| apply find_post_fresh | apply Z.eqb_refl].
  cbn [Post.author_id user_table]. rewrite Ha. reflexivity.
Qed.

Lemma delete_post_eq id s :
  Mutation.delete_post id s =
  match stored_post s id with
  | None => (Raise (Exception "Post not found"), s)
  | Some p =>
      (Ok true,
       mk_store (user_table s)
                (List.filter (fun q => negb (Post.id q =? Post.id p))
                             (post_table s)))
  end.
Proof.
  unfold Mutation.delete_post, stored_post, bind, get_post.
  destruct (List.find _ (post_table s)); reflexivity.
Qed.

Lemma update_post_store id title content s :
  snd (Mutation.update_post id title content s) =
  match stored_post s id with
  | None => s
  | Some p =>
      mk_store (user_table s)
               (replace_post p (overwrite_post title content p)
                             (post_table s))
  end.
Proof.
  rewrite update_post_eq. destruct (stored_post s id); [|reflexivity].
  cbv zeta. destruct (stored_user s _); reflexivity.
Qed.

(** Every mutation of the schema, whether it succeeds or raises, takes
    a store that meets the constraints to one that meets them. *)
Lemma well_formed_preserved (now : datetime) (m : Schema.mutation)
      (s : store) :
  well_formed s = true ->
  well_formed (snd (Schema.execute_mutation now m s)) = true.
Proof.
  intros Hwf. pose proof Hwf as Hs.
  apply well_formed_iff in Hs as (Hu & Hp & Hd & Hf).
  destruct m; cbn [Schema.execute_mutation]; rewrite snd_bind_ret.
  - (* createUser *)
    rewrite create_user_eq.
    destruct (List.find _ (user_table s)) eqn:E; [exact Hwf|].
    cbv zeta. cbn [snd]. apply well_formed_iff. cbn [user_table post_table].
    rewrite !map_app. cbn [map User.id User.email].
    split; [|split; [exact Hp|split]].
    + apply ascending_app_last; [exact Hu | apply next_rowid_above].
    + apply distinct_app_last; [exact Hd|].
      intros Hin. apply in_map_iff in Hin as (r & Hr & Hin).
      now apply (proj1 (find_email_none _ _) E r).
    + unfold authors_stored in *. cbn [user_table post_table].
      rewrite forallb_forall in *. intros p Hin.
      rewrite existsb_app. now rewrite (Hf p Hin).
  - (* updateUser *)
    rewrite update_user_eq.
    destruct (stored_user s id) as [u|] eqn:Hst; [|exact Hwf].
    cbv zeta.
    set (u' := overwrite_user _ _ _ u).
    destruct (negb _ && _) eqn:Hc; [exact Hwf|].
    cbn [snd]. apply well_formed_iff. cbn [user_table post_table].
    assert (Hids : map User.id (replace_user u u' (user_table s))
                   = map User.id (user_table s))
      by (apply (map_key_replace User.id); reflexivity).
    split; [now rewrite Hids|]. split; [exact Hp|]. split.
    + apply distinct_replace_user; auto.
      intros r Hr Hne.
      apply andb_false_iff in Hc as [Hc|Hc].
      * apply negb_false_iff, String.eqb_eq in Hc. rewrite Hc.
        intros Heq. apply Hne. f_equal.
        apply (distinct_same_email (user_table s)); auto.
        unfold stored_user in Hst. now apply find_some in Hst as [Hst _].
      * unfold email_in_use_elsewhere in Hc.
        intros Heq.
        assert (existsb
                  (fun v => negb (User.id v =? User.id u) &&
                            String.eqb (User.email v) (User.email u'))
                  (user_table s) = true); [|congruence].
        apply existsb_exists. exists r. split; [exact Hr|].
        apply andb_true_iff. split.
        -- apply negb_true_iff, Z.eqb_neq. exact Hne.
        -- now apply String.eqb_eq.
    + unfold authors_stored in *. cbn [user_table post_table].
      rewrite forallb_forall in *. intros p Hin.
      rewrite has_user_ids, Hids, <- has_user_ids. now apply Hf.
  - (* deleteUser *)
    rewrite delete_user_eq.
    destruct (stored_user s id) as [u|] eqn:Hst; [|exact Hwf].
    destruct (owns_posts s u) eqn:Hown; [exact Hwf|].
    cbn [snd]. apply well_formed_iff. cbn [user_table post_table].
    split; [now apply ascending_filter|]. split; [exact Hp|].
    split; [now apply distinct_filter|].
    unfold authors_stored, owns_posts in *. cbn [user_table post_table].
    rewrite forallb_forall in *. intros p Hin.
    specialize (Hf p Hin). apply existsb_exists in Hf as (a & Ha & Heq).
    apply existsb_exists. exists a. split; [|exact Heq].
    apply filter_In. split; [exact Ha|].
    apply negb_true_iff, Z.eqb_neq. intros Hau.
    assert (existsb (fun q => Post.author_id q =? User.id u) (post_table s)
            = true); [|congruence].
    apply existsb_exists. exists p. split; [exact Hin|].
    apply Z.eqb_eq in Heq. apply Z.eqb_eq. congruence.
  - (* createPost *)
    rewrite create_post_store.
    destruct (stored_user s _) as [a|] eqn:Ha; [|exact Hwf].
    apply well_formed_iff. cbn [user_table post_table].
    rewrite map_app. cbn [map Post.id].
    split; [exact Hu|]. split; [|split; [exact Hd|]].
    + apply ascending_app_last; [exact Hp | apply next_rowid_above].
    + unfold authors_stored in *. cbn [user_table post_table].
      rewrite forallb_app, Hf. cbn [forallb Post.author_id].
      rewrite andb_true_r.
      unfold stored_user in Ha. apply find_some in Ha as [Hin Heq].
      apply existsb_exists. now exists a.
  - (* updatePost *)
    rewrite update_post_store.
    destruct (stored_post s id) as [p|] eqn:Hst; [|exact Hwf].
    apply well_formed_iff. cbn [user_table post_table].
    split; [exact Hu|]. split; [|split; [exact Hd|]].
    + unfold replace_post. rewrite (map_key_replace Post.id); auto.
    + unfold authors_stored in *. cbn [user_table post_table].
      rewrite forallb_forall in *. intros q Hq.
      unfold replace_post in Hq. apply in_map_iff in Hq as (r & <- & Hr).
      destruct (Post.id r =? Post.id p); [|now apply Hf].
      cbn [overwrite_post Post.author_id]. apply Hf.
      unfold stored_post in Hst. now apply find_some in Hst as [Hst _].
  - (* deletePost *)
    rewrite delete_post_eq.
    destruct (stored_post s id) as [p|] eqn:Hst; [|exact Hwf].
    cbn [snd]. apply well_formed_iff. cbn [user_table post_table].
    split; [exact Hu|]. split; [now apply ascending_filter|].
    split; [exact Hd|].
    unfold authors_stored in *. cbn [user_table post_table].
    now apply forallb_filter_true.
Qed.

(** The empty database made by [create_db_and_tables] meets the
    constraints, and so does every store reached from it by
    mutations. *)
Lemma well_formed_reachable (requests : list (datetime * Schema.mutation)) :
  well_formed (Schema.execute_all requests (mk_store [] [])) = true.
Proof.
  assert (forall s, well_formed s = true ->
                    well_formed (Schema.execute_all requests s) = true) as H.
  { induction requests as [|[now m] requests IH]; intros s Hs; [exact Hs|].
    cbn [Schema.execute_all]. apply IH. now apply well_formed_preserved. }
  now apply H.
Qed.

(** ** Timestamps on the wire *)

Example isoformat_examples :
  isoformat (mk_datetime 2024 3 7 9 5 0 0) = "2024-03-07T09:05:00" /\
  isoformat t1 = "2024-02-01T08:00:05.004200".
Proof. split; reflexivity. Qed.

(** * Further properties of the resolvers *)

(** ** The users query *)

Lemma users_impls_eq impl :
  In impl users_impls -> impl = Query.users.
Proof. intros [<-|[<-|[]]]; reflexivity. Qed.

Lemma users_query_eq limit offset s :
  Query.users limit offset s
  = (Ok (map user_type (offset_limit offset limit (user_table s))), s).
Proof. reflexivity. Qed.

Lemma take_take_drop_app {A} (a b : nat) (l : list A) :
  take a l ++ take b (drop a l) = take (a + b) l.
Proof.
  revert l. induction a as [|a IH]; intros [|x l]; simpl;
    try reflexivity.
  - now destruct b.
  - now rewrite IH.
Qed.

(** X1. The users query, in main.py and in resolvers.py, never raises
    and never writes, whatever its arguments (null, negative or not):
    it returns a list of views of stored users and hands back the store
    it was given.  For a non-negative limit and offset it returns the
    views of the users that remain after skipping the first [offset]
    rows and keeping at most [limit], so that the page holds
    min(limit, max(0, n - offset)) users of the n stored: none when the
    offset reaches the end of the table or the limit is 0. *)
Theorem users_page
  (impl : option Z -> option Z -> Session (list UserType.t)) (s : store) :
  In impl users_impls ->
  (forall limit offset : option Z,
     exists page,
       impl limit offset s = (Ok page, s) /\
       (forall r, In r page ->
                  exists u, In u (user_table s) /\ r = user_type u))
  /\
  (forall limit offset : Z,
     0 <= limit -> 0 <= offset ->
     exists page,
       impl (Some limit) (Some offset) s = (Ok page, s) /\
       page = map user_type
                  (take (Z.to_nat limit)
                        (drop (Z.to_nat offset) (user_table s))) /\
       Z.of_nat (length page)
       = Z.min limit (Z.max 0 (Z.of_nat (length (user_table s)) - offset))).
Proof.
  intros Himpl. apply users_impls_eq in Himpl as ->. split.
  - intros limit offset. eexists. split; [apply users_query_eq|].
    intros r Hr. apply in_map_iff in Hr as (u & <- & Hu).
    exists u. split; [|reflexivity]. now apply in_offset_limit in Hu.
  - intros limit offset Hl Ho.
    eexists. split; [apply users_query_eq|].
    unfold offset_limit.
    replace (limit <? 0) with false by (symmetry; apply Z.ltb_ge; lia).
    split; [reflexivity|].
    rewrite length_map, length_firstn, length_skipn. lia.
Qed.

Lemma users_page_witness :
  (exists page,
     Query.users None (Some (-4)) two_users = (Ok page, two_users) /\
     (forall r, In r page ->
                exists u, In u (user_table two_users) /\ r = user_type u))
  /\
  (exists page,
     UserResolver.users (Some 5) (Some 1) two_users = (Ok page, two_users) /\
     page = [user_type bob] /\
     Z.of_nat (length page) = 1).
Proof.
  split.
  - refine (proj1 (users_page Query.users two_users _) None (Some (-4))).
    simpl. auto.
  - refine (proj2 (users_page UserResolver.users two_users _) 5 1 _ _).
    + simpl. auto.
    + lia.
    + lia.
Defined.

(** X2. Consecutive pages of users join up: the page of [a] users at
    offset [o] followed by the page of [b] users at offset [o + a] is
    the page of [a + b] users at offset [o]. *)
Theorem users_pages_concatenate
  (impl : option Z -> option Z -> Session (list UserType.t))
  (a b o : Z) (s : store) :
  In impl users_impls ->
  0 <= a -> 0 <= b -> 0 <= o ->
  exists first second both,
    impl (Some a) (Some o) s = (Ok first, s) /\
    impl (Some b) (Some (o + a)) s = (Ok second, s) /\
    impl (Some (a + b)) (Some o) s = (Ok both, s) /\
    first ++ second = both.
Proof.
  intros Himpl Ha Hb Ho. apply users_impls_eq in Himpl as ->.
  do 3 eexists. rewrite !users_query_eq.
  repeat split. unfold offset_limit.
  replace (a <? 0) with false by (symmetry; apply Z.ltb_ge; lia).
  replace (b <? 0) with false by (symmetry; apply Z.ltb_ge; lia).
  replace (a + b <? 0) with false by (symmetry; apply Z.ltb_ge; lia).
  rewrite <- map_app. f_equal.
  replace (Z.to_nat (o + a)) with (Z.to_nat a + Z.to_nat o)%nat by lia.
  rewrite <- skipn_skipn.
  rewrite Z2Nat.inj_add by lia. apply take_take_drop_app.
Qed.

Lemma users_pages_concatenate_witness :
  exists first second both,
    Query.users (Some 1) (Some 0) two_users = (Ok first, two_users) /\
    Query.users (Some 1) (Some (0 + 1)) two_users = (Ok second, two_users) /\
    Query.users (Some (1 + 1)) (Some 0) two_users = (Ok both, two_users) /\
    first ++ second = both.
Proof.
  apply (users_pages_concatenate Query.users 1 1 0 two_users).
  - simpl. auto.
  - lia.
  - lia.
  - lia.
Defined.

(** X3. The arguments of the users field that fall outside a plain
    page.  With both arguments left out the query returns the first ten
    users.  A limit that is null or negative is no limit: the query
    returns every user after the offset.  An offset that is null or
    negative skips nothing. *)
Theorem users_edge_arguments (s : store) :
  Schema.execute_query (Schema.users Omitted Omitted) s
  = (Ok (Schema.UserList (map user_type (take 10 (user_table s)))), s)
  /\
  (forall limit o,
     limit = Null \/ (exists l, limit = Given l /\ l < 0) ->
     0 <= o ->
     Schema.execute_query (Schema.users limit (Given o)) s
     = (Ok (Schema.UserList
              (map user_type (drop (Z.to_nat o) (user_table s)))), s))
  /\
  (forall offset l,
     offset = Null \/ (exists o, offset = Given o /\ o < 0) ->
     0 <= l ->
     Schema.execute_query (Schema.users (Given l) offset) s
     = (Ok (Schema.UserList
              (map user_type (take (Z.to_nat l) (user_table s)))), s)).
Proof.
  split; [reflexivity|]. split.
  - intros limit o [->|(l & -> & Hl)] Ho.
    + reflexivity.
    + cbn [Schema.execute_query argument]. unfold bind.
      rewrite users_query_eq. unfold offset_limit.
      now replace (l <? 0) with true by (symmetry; apply Z.ltb_lt; lia).
  - intros offset l [->|(o & -> & Ho)] Hl;
      cbn [Schema.execute_query argument]; unfold bind;
      rewrite users_query_eq; unfold offset_limit;
      replace (l <? 0) with false by (symmetry; apply Z.ltb_ge; lia).
    + reflexivity.
    + replace (Z.to_nat o) with 0%nat by lia. reflexivity.
Qed.

Lemma users_edge_arguments_witness :
  Schema.execute_query (Schema.users (Given (-3)) (Given 1)) two_users
  = (Ok (Schema.UserList [user_type bob]), two_users) /\
  Schema.execute_query (Schema.users (Given 1) Null) two_users
  = (Ok (Schema.UserList [user_type alice]), two_users).
Proof.
  split.
  - refine (proj1 (proj2 (users_edge_arguments two_users))
              (Given (-3)) 1 _ _).
    + right. exists (-3). split; [reflexivity | lia].
    + lia.
  - refine (proj2 (proj2 (users_edge_arguments two_users))
              Null 1 _ _).
    + left. reflexivity.
    + lia.
Defined.

(** X4. The list and the lookup agree: on a store whose user ids
    ascend, every user that the users query returns, whatever its
    arguments, is exactly what the user query returns for that user's
    id. *)
Theorem users_agree_with_user
  (impl : option Z -> option Z -> Session (list UserType.t))
  (limit offset : option Z) (s : store) (page : list UserType.t)
  (r : UserType.t) :
  In impl users_impls ->
  ascending (map User.id (user_table s)) = true ->
  fst (impl limit offset s) = Ok page ->
  In r page ->
  Query.user (UserType.id r) s = (Ok (Some r), s) /\
  UserResolver.user (UserType.id r) s = (Ok (Some r), s).
Proof.
  intros Himpl Hasc Hpage Hr. apply users_impls_eq in Himpl as ->.
  rewrite users_query_eq in Hpage. cbn in Hpage. injection Hpage as <-.
  apply in_map_iff in Hr as (u & <- & Hu). apply in_offset_limit in Hu.
  change (UserResolver.user (UserType.id (user_type u)) s)
    with (Query.user (UserType.id (user_type u)) s).
  rewrite user_query_eq. cbn [user_type UserType.id].
  unfold stored_user. rewrite (find_own_key User.id _ _ Hasc Hu).
  split; reflexivity.
Qed.

Lemma users_agree_with_user_witness :
  Query.user 2 two_users = (Ok (Some (user_type bob)), two_users) /\
  UserResolver.user 2 two_users = (Ok (Some (user_type bob)), two_users).
Proof.
  refine (users_agree_with_user Query.users None (Some 1) two_users
            [user_type bob] (user_type bob) _ _ _ _).
  - simpl. auto.
  - reflexivity.
  - reflexivity.
  - simpl. auto.
Defined.

(** ** The post query and the two forms of posts *)

(** What [Query.post] computes. *)
Lemma post_query_eq id s :
  Query.post id s =
  match stored_post s id with
  | None => (Ok None, s)
  | Some p =>
      match stored_user s (Post.author_id p) with
      | Some a => (Ok (Some (post_type p a)), s)
      | None =>
          (Raise (AttributeError "'NoneType' object has no attribute 'id'"),
           s)
      end
  end.
Proof.
  unfold Query.post, stored_post, bind, get_post at 1.
  destruct (List.find _ (post_table s)) as [p|] eqn:Hp; [|reflexivity].
  pose proof (find_key Post.id _ _ _ Hp) as Hid.
  unfold get_post. rewrite Hid, Hp.
  unfold attr_of_author, author, bind, get_user, stored_user.
  destruct (List.find _ (user_table s)); reflexivity.
Qed.

(** X5. The post query never writes.  It returns null, and no error,
    when the id names no stored post.  For a stored post it returns the
    post with the stored user its author_id names embedded in full;
    on a store that meets the constraints of the schema that user is
    always there, so the query succeeds for every stored post. *)
Theorem post_lookup (id : Z) (s : store) :
  snd (Query.post id s) = s /\
  (stored_post s id = None -> fst (Query.post id s) = Ok None) /\
  (forall p a,
     stored_post s id = Some p ->
     stored_user s (Post.author_id p) = Some a ->
     fst (Query.post id s) = Ok (Some (post_type p a))) /\
  (forall p,
     well_formed s = true -> stored_post s id = Some p ->
     exists a,
       stored_user s (Post.author_id p) = Some a /\
       fst (Query.post id s) = Ok (Some (post_type p a))).
Proof.
  rewrite post_query_eq. repeat apply conj.
  - destruct (stored_post s id) as [p|]; [|reflexivity].
    destruct (stored_user s _); reflexivity.
  - intros ->. reflexivity.
  - intros p a -> ->. reflexivity.
  - intros p Hwf Hp. rewrite Hp.
    apply well_formed_iff in Hwf as (_ & _ & _ & Hf).
    unfold authors_stored in Hf. rewrite forallb_forall in Hf.
    unfold stored_post in Hp. pose proof (find_some _ _ Hp) as [Hin _].
    destruct (existsb_find_key User.id _ _ (Hf p Hin)) as (a & Ha).
    exists a. unfold stored_user. rewrite Ha. split; reflexivity.
Qed.

Lemma post_lookup_witness :
  fst (Query.post 9 five_posts) = Ok None /\
  exists a,
    stored_user five_posts (Post.author_id (numbered_post 2 2)) = Some a /\
    fst (Query.post 2 five_posts) = Ok (Some (post_type (numbered_post 2 2) a)).
Proof.
  split.
  - refine (proj1 (proj2 (post_lookup 9 five_posts)) _). reflexivity.
  - refine (proj2 (proj2 (proj2 (post_lookup 2 five_posts)))
              (numbered_post 2 2) _ _); reflexivity.
Defined.

Lemma for_each_agree {A B} (f g : A -> Session B) (l : list A) (s : store) :
  (forall x, In x l -> f x s = g x s) ->
  (forall x, read_only (g x)) ->
  for_each f l s = for_each g l s.
Proof.
  intros Hfg Hg. induction l as [|x l IH]; [reflexivity|].
  simpl. unfold bind at 1 3. rewrite (Hfg x) by now left.
  pose proof (Hg x s) as Hx.
  destruct (g x s) as [[y|e] s1]; cbn in Hx; subst s1; [|reflexivity].
  unfold bind. rewrite IH; [reflexivity|].
  intros z Hz. apply Hfg. now right.
Qed.

Lemma bind_select_posts {B} offset limit (k : list Post.t -> Session B) s :
  bind (select_posts offset limit) k s
  = k (offset_limit offset limit (post_table s)) s.
Proof. reflexivity. Qed.

(** X6. Loading each post a second time, as the posts query of main.py
    does before it reads the author, changes nothing: on a store whose
    post ids ascend, it returns or raises exactly as the posts query of
    resolvers.py, for all arguments. *)
Theorem posts_reload_is_redundant (limit offset : option Z) (s : store) :
  ascending (map Post.id (post_table s)) = true ->
  Query.posts limit offset s = PostResolver.posts limit offset s.
Proof.
  intros Hasc. unfold Query.posts, PostResolver.posts.
  rewrite !bind_select_posts. apply for_each_agree.
  - intros p Hp. apply in_offset_limit in Hp.
    unfold bind at 1. unfold get_post.
    rewrite (find_own_key Post.id _ _ Hasc Hp). reflexivity.
  - intros p. apply read_only_bind; [apply read_only_attr_of_author|].
    intros a. apply read_only_ret.
Qed.

Lemma posts_reload_is_redundant_witness :
  Query.posts (Some 2) None five_posts
  = PostResolver.posts (Some 2) None five_posts.
Proof.
  apply (posts_reload_is_redundant (Some 2) None five_posts). reflexivity.
Defined.

Lemma Forall2_In_left {A B} (R : A -> B -> Prop) (xs : list A)
      (ys : list B) (x : A) :
  Forall2 R xs ys -> In x xs -> exists y, In y ys /\ R x y.
Proof.
  induction 1 as [|x' y' xs ys Hxy Hall IH]; intros Hin; [destruct Hin|].
  destruct Hin as [<-|Hin].
  - exists y'. split; [now left | exact Hxy].
  - destruct (IH Hin) as (y & Hy & Hr). exists y. split; [now right | exact Hr].
Qed.

(** X7. In a page of posts and in a single lookup a post reads the
    same: on a store that meets the constraints of the schema, every
    post the posts query returns is what the post query returns for its
    id. *)
Theorem posts_agree_with_post
  (impl : option Z -> option Z -> Session (list PostType.t))
  (limit offset : option Z) (s : store) (page : list PostType.t)
  (r : PostType.t) :
  In impl posts_impls ->
  well_formed s = true ->
  fst (impl limit offset s) = Ok page ->
  In r page ->
  Query.post (PostType.id r) s = (Ok (Some r), s).
Proof.
  intros Himpl Hwf Hpage Hr.
  destruct (posts_impls_body impl offset limit s Himpl Hwf)
    as (page' & Hrun & Hall).
  rewrite Hrun in Hpage. cbn in Hpage. injection Hpage as ->.
  assert (exists p a, In p (post_table s) /\
                      stored_user s (Post.author_id p) = Some a /\
                      r = post_type p a) as (p & a & Hp & Ha & ->).
  { destruct (Forall2_In_left _ _ _ _ Hall Hr) as (p & Hp & a & Ha & Hra).
    exists p, a. split; [|now split].
    now apply (in_offset_limit offset limit). }
  apply well_formed_iff in Hwf as (_ & Hasc & _ & _).
  rewrite post_query_eq. cbn [post_type PostType.id].
  unfold stored_post. rewrite (find_own_key Post.id _ _ Hasc Hp).
  now rewrite Ha.
Qed.

Lemma posts_agree_with_post_witness :
  Query.post 1 blog = (Ok (Some (post_type first_post alice)), blog).
Proof.
  refine (posts_agree_with_post PostResolver.posts None None blog
            [post_type first_post alice] (post_type first_post alice)
            _ _ _ _).
  - simpl. auto.
  - reflexivity.
  - reflexivity.
  - simpl. auto.
Defined.

(** ** deletePost *)

(** X8. deletePost fails with NotFound exactly when the id names no
    stored post, and then leaves the store unchanged.  Otherwise it
    returns true and removes that post: the id no longer names a post,
    the post query returns null for it, every other post and every user
    is unchanged. *)
Theorem delete_post_not_found_or_removed (id : Z) (s : store) :
  let s' := snd (Mutation.delete_post id s) in
  (fails_with (fst (Mutation.delete_post id s)) NotFound <->
   stored_post s id = None)
  /\
  (stored_post s id = None -> s' = s)
  /\
  (forall p, stored_post s id = Some p ->
     fst (Mutation.delete_post id s) = Ok true /\
     stored_post s' id = None /\
     Query.post id s' = (Ok None, s') /\
     (forall j, j <> id -> stored_post s' j = stored_post s j) /\
     user_table s' = user_table s).
Proof.
  cbv zeta. rewrite delete_post_eq.
  destruct (stored_post s id) as [p|] eqn:Hp.
  - pose proof (find_key Post.id _ _ _ Hp) as Hid.
    split; [|split; [discriminate|]].
    + split; [|discriminate]. intros (e & He & _). discriminate.
    + intros q Hq. injection Hq as <-. cbn [fst snd].
      assert (Hgone :
        stored_post
          (mk_store (user_table s)
             (List.filter (fun q => negb (Post.id q =? Post.id p))
                          (post_table s))) id = None).
      { unfold stored_post. cbn [post_table]. rewrite Hid.
        apply find_filter_removed. }
      split; [reflexivity|]. split; [exact Hgone|].
      split; [now rewrite post_query_eq, Hgone|].
      split; [|reflexivity].
      intros j Hj. unfold stored_post. cbn [post_table]. rewrite Hid.
      now apply find_filter_other.
  - split; [|split; [reflexivity | discriminate]].
    split; [reflexivity|]. intros _. eexists. split; reflexivity.
Qed.

Lemma delete_post_not_found_or_removed_witness :
  snd (Mutation.delete_post 8 five_posts) = five_posts /\
  fst (Mutation.delete_post 3 five_posts) = Ok true /\
  stored_post (snd (Mutation.delete_post 3 five_posts)) 3 = None.
Proof.
  split.
  - refine (proj1 (proj2 (delete_post_not_found_or_removed 8 five_posts)) _).
    reflexivity.
  - destruct (proj2 (proj2 (delete_post_not_found_or_removed 3 five_posts))
                (numbered_post 3 1) eq_refl) as (Hok & Hgone & _).
    split; [exact Hok | exact Hgone].
Defined.

(** ** The update mutations on a missing id, and what updatePost
       stores and returns *)

(** X9. updateUser (in main.py and in resolvers.py) and updatePost fail
    with NotFound exactly when the id names no stored row, and then
    leave the store unchanged, whatever fields were supplied. *)
Theorem updates_not_found
  (impl : Z -> option string -> option string -> option Z ->
          Session UserType.t)
  (id : Z) (name email title content : option string) (age : option Z)
  (s : store) :
  In impl update_user_impls ->
  (fails_with (fst (impl id name email age s)) NotFound <->
   stored_user s id = None)
  /\
  (stored_user s id = None -> snd (impl id name email age s) = s)
  /\
  (fails_with (fst (Mutation.update_post id title content s)) NotFound <->
   stored_post s id = None)
  /\
  (stored_post s id = None ->
   snd (Mutation.update_post id title content s) = s).
Proof.
  intros Himpl. apply update_user_impls_eq in Himpl as ->.
  rewrite update_user_eq, update_post_eq.
  split; [|split; [|split]].
  - destruct (stored_user s id) as [u|].
    + split; [|discriminate]. cbv zeta. intros (e & He & Hk).
      destruct (negb _ && _); cbn in He; [|discriminate].
      injection He as <-. discriminate.
    + split; [reflexivity|]. intros _. eexists. split; reflexivity.
  - intros ->. reflexivity.
  - destruct (stored_post s id) as [p|].
    + split; [|discriminate]. cbv zeta. intros (e & He & Hk).
      destruct (stored_user s _); cbn in He; [discriminate|].
      injection He as <-. discriminate.
    + split; [reflexivity|]. intros _. eexists. split; reflexivity.
  - intros ->. reflexivity.
Qed.

Lemma updates_not_found_witness :
  snd (UserMutation.update_user
         5 (UserUpdateInput.mk (Some "Eve") None None) blog) = blog /\
  snd (Mutation.update_post 5 (Some "T") None blog) = blog.
Proof.
  pose proof (updates_not_found
                (fun id name email age =>
                   UserMutation.update_user
                     id (UserUpdateInput.mk name email age))
                5 (Some "Eve") None (Some "T") None None blog)
    as (_ & Hu & _ & Hp).
  - simpl. auto.
  - split; [apply Hu | apply Hp]; reflexivity.
Defined.

Lemma stored_post_replace_same (s : store) (p p' : Post.t) (id : Z) :
  stored_post s id = Some p -> Post.id p' = Post.id p ->
  stored_post (mk_store (user_table s) (replace_post p p' (post_table s))) id
  = Some p'.
Proof.
  unfold stored_post, replace_post. cbn [post_table]. intros Hp Hid.
  pose proof (find_key Post.id _ _ _ Hp) as Hk. rewrite <- Hk.
  apply (find_map_replace Post.id); [exact Hid | now rewrite Hk].
Qed.

Lemma stored_post_replace_other (s : store) (p p' : Post.t) (j : Z) :
  Post.id p' = Post.id p -> Post.id p <> j ->
  stored_post (mk_store (user_table s) (replace_post p p' (post_table s))) j
  = stored_post s j.
Proof.
  unfold stored_post, replace_post. cbn [post_table]. intros Hid Hne.
  now apply (find_map_replace_other Post.id).
Qed.

(** X10. updatePost on the id of a stored post writes the partial
    update whatever it then returns: the stored title and content are
    the supplied ones where supplied and the prior ones otherwise; the
    id, author_id and created_at of the post, every other post and
    every user are unchanged. *)
Theorem update_post_writes_partial_update
  (id : Z) (title content : option string) (s : store) (p : Post.t) :
  stored_post s id = Some p ->
  let s' := snd (Mutation.update_post id title content s) in
  exists q,
    stored_post s' id = Some q /\
    Post.title q = supplied title (Post.title p) /\
    Post.content q = supplied content (Post.content p) /\
    Post.id q = Post.id p /\
    Post.author_id q = Post.author_id p /\
    Post.created_at q = Post.created_at p /\
    (forall j, j <> id -> stored_post s' j = stored_post s j) /\
    user_table s' = user_table s.
Proof.
  intros Hp. cbv zeta. rewrite update_post_store, Hp.
  pose proof (find_key Post.id _ _ _ Hp) as Hid.
  exists (overwrite_post title content p).
  split; [now apply stored_post_replace_same|].
  repeat split.
  intros j Hj. apply stored_post_replace_other; [reflexivity | lia].
Qed.

Lemma update_post_writes_partial_update_witness :
  exists q,
    stored_post (snd (Mutation.update_post 1 None (Some "Edited") blog)) 1
    = Some q /\
    Post.title q = "Old title" /\ Post.content q = "Edited".
Proof.
  destruct (update_post_writes_partial_update
              1 None (Some "Edited") blog first_post eq_refl)
    as (q & Hq & Ht & Hc & _).
  exists q. split; [exact Hq|]. split; [exact Ht | exact Hc].
Defined.

(** X11. What a successful updatePost returns.  When the post and its
    author are stored, the call succeeds and returns the id, the
    created_at and the author of the post and, as content, the content
    stored after the update; the title field of the result carries that
    same content, never the stored title (main.py line 284). *)
Theorem update_post_result
  (id : Z) (title content : option string) (s : store)
  (p : Post.t) (a : User.t) :
  stored_post s id = Some p ->
  stored_user s (Post.author_id p) = Some a ->
  exists r,
    fst (Mutation.update_post id title content s) = Ok r /\
    PostType.id r = id /\
    PostType.content r = supplied content (Post.content p) /\
    PostType.title r = supplied content (Post.content p) /\
    PostType.created_at r = isoformat (Post.created_at p) /\
    PostType.author r = user_type a.
Proof.
  intros Hp Ha. rewrite update_post_eq, Hp. cbv zeta. rewrite Ha.
  eexists. split; [reflexivity|].
  pose proof (find_key Post.id _ _ _ Hp) as Hid.
  repeat split. exact Hid.
Qed.

Lemma update_post_result_witness :
  exists r,
    fst (Mutation.update_post 1 (Some "New") (Some "Edited") blog) = Ok r /\
    PostType.id r = 1 /\
    PostType.content r = "Edited" /\
    PostType.title r = "Edited" /\
    PostType.created_at r = "2024-01-15T10:30:00" /\
    PostType.author r = user_type alice.
Proof.
  exact (update_post_result 1 (Some "New") (Some "Edited") blog
           first_post alice eq_refl eq_refl).
Defined.

(** ** The mutations as a whole *)

(** What [Mutation.create_post] computes. *)
Lemma create_post_eq now post_input s :
  Mutation.create_post now post_input s =
  match stored_user s (PostInput.author_id post_input) with
  | None => (Raise (Exception "Author not found"), s)
  | Some a =>
      let p := Post.mk (next_rowid (map Post.id (post_table s)))
                       (PostInput.title post_input)
                       (PostInput.content post_input)
                       (PostInput.author_id post_input) now in
      (Ok (post_type p a), mk_store (user_table s) (post_table s ++ [p]))
  end.
Proof.
  unfold Mutation.create_post, stored_user, bind, get_user.
  destruct (List.find _ (user_table s)) as [a|] eqn:Ha; [|reflexivity].
  unfold add_post, get_post, attr_of_author, author, bind, get_user, ret.
  cbn [user_table post_table Post.id Post.author_id fst snd].
  rewrite (find_app_last _ (post_table s));
    [| apply find_post_fresh | apply Z.eqb_refl].
  cbn [Post.author_id user_table]. rewrite Ha. reflexivity.
Qed.

(** On a store that meets the constraints, the author of a stored post
    is stored. *)
Lemma well_formed_author (s : store) (id : Z) (p : Post.t) :
  well_formed s = true -> stored_post s id = Some p ->
  exists a, stored_user s (Post.author_id p) = Some a.
Proof.
  intros Hwf Hp. apply well_formed_iff in Hwf as (_ & _ & _ & Hf).
  unfold authors_stored in Hf. rewrite forallb_forall in Hf.
  unfold stored_post in Hp. apply find_some in Hp as [Hin _].
  apply (existsb_find_key User.id). now apply Hf.
Qed.

(** X12. The constraints of the schema are an invariant of the API:
    if primary keys ascend along both tables, emails are pairwise
    distinct and every post's author is stored, then the same holds
    after any series of mutations, successful or not; in particular it
    holds of every store reached from the empty database. *)
Theorem constraints_are_invariant
  (requests : list (datetime * Schema.mutation)) (s : store) :
  (well_formed s = true ->
   well_formed (Schema.execute_all requests s) = true) /\
  well_formed (Schema.execute_all requests (mk_store [] [])) = true.
Proof.
  assert (forall s0, well_formed s0 = true ->
                     well_formed (Schema.execute_all requests s0) = true)
    as H.
  { induction requests as [|[now m] requests IH]; intros s0 Hs; [exact Hs|].
    cbn [Schema.execute_all]. apply IH. now apply well_formed_preserved. }
  split; [apply H | now apply H].
Qed.

Lemma constraints_are_invariant_witness :
  well_formed
    (Schema.execute_all
       [(t1, Schema.createUser carol_input);
        (t1, Schema.updateUser 2 Omitted (Given "alice@example.com") Null);
        (t1, Schema.deleteUser 1);
        (t1, Schema.createPost (PostInput.mk "T" "C" 3));
        (t1, Schema.deletePost 1)]
       blog) = true.
Proof.
  refine (proj1 (constraints_are_invariant _ blog) _). reflexivity.
Defined.

(** X13. A mutation that raises has written nothing: on a store that
    meets the constraints of the schema, whenever a mutation fails, for
    whatever reason, the store after the call is the store before
    it. *)
Theorem failed_mutation_writes_nothing
  (now : datetime) (m : Schema.mutation) (s : store) (e : exn) :
  well_formed s = true ->
  fst (Schema.execute_mutation now m s) = Raise e ->
  snd (Schema.execute_mutation now m s) = s.
Proof.
  intros Hwf. destruct m; cbn [Schema.execute_mutation]; unfold bind.
  - rewrite create_user_eq. destruct (List.find _ _); [reflexivity|].
    discriminate.
  - rewrite update_user_eq. destruct (stored_user s id); [|reflexivity].
    cbv zeta. destruct (negb _ && _); [reflexivity | discriminate].
  - rewrite delete_user_eq. destruct (stored_user s id) as [u|];
      [|reflexivity].
    destruct (owns_posts s u); [reflexivity | discriminate].
  - rewrite create_post_eq. destruct (stored_user s _); [|reflexivity].
    discriminate.
  - rewrite update_post_eq. destruct (stored_post s id) as [p|] eqn:Hp;
      [|reflexivity].
    destruct (well_formed_author s id p Hwf Hp) as (a & Ha).
    cbv zeta. rewrite Ha. discriminate.
  - rewrite delete_post_eq. destruct (stored_post s id); [|reflexivity].
    discriminate.
Qed.

Lemma failed_mutation_writes_nothing_witness :
  snd (Schema.execute_mutation t1 (Schema.deleteUser 1) blog) = blog.
Proof.
  refine (failed_mutation_writes_nothing
            t1 (Schema.deleteUser 1) blog
            (IntegrityError "NOT NULL constraint failed: post.author_id")
            _ _); reflexivity.
Defined.

Lemma find_app_first {A} (f : A -> bool) (l k : list A) (x : A) :
  List.find f l = Some x -> List.find f (l ++ k) = Some x.
Proof.
  induction l as [|y l IH]; simpl; [discriminate|].
  destruct (f y); [auto | exact IH].
Qed.

(** X14. What a mutation does not touch.  The user mutations never
    change the post table and the post mutations never change the user
    table; createUser and createPost leave every row that was stored
    before unchanged under its id. *)
Theorem mutations_frame (now : datetime) (s : store) :
  (forall m,
     match m with
     | Schema.createUser _ | Schema.updateUser _ _ _ _
     | Schema.deleteUser _ =>
         post_table (snd (Schema.execute_mutation now m s)) = post_table s
     | Schema.createPost _ | Schema.updatePost _ _ _
     | Schema.deletePost _ =>
         user_table (snd (Schema.execute_mutation now m s)) = user_table s
     end)
  /\
  (forall user_input j u,
     stored_user s j = Some u ->
     stored_user
       (snd (Schema.execute_mutation now (Schema.createUser user_input) s)) j
     = Some u)
  /\
  (forall post_input j p,
     stored_post s j = Some p ->
     stored_post
       (snd (Schema.execute_mutation now (Schema.createPost post_input) s)) j
     = Some p).
Proof.
  repeat apply conj.
  - intros m. destruct m; cbn [Schema.execute_mutation];
      rewrite snd_bind_ret.
    + rewrite create_user_eq. destruct (List.find _ _); reflexivity.
    + rewrite update_user_eq. destruct (stored_user s id); [|reflexivity].
      cbv zeta. destruct (negb _ && _); reflexivity.
    + rewrite delete_user_eq. destruct (stored_user s id) as [u|];
        [|reflexivity].
      destruct (owns_posts s u); reflexivity.
    + rewrite create_post_store. destruct (stored_user s _); reflexivity.
    + apply update_post_keeps_users.
    + rewrite delete_post_eq. destruct (stored_post s id); reflexivity.
  - intros user_input j u Hu. cbn [Schema.execute_mutation].
    rewrite snd_bind_ret, create_user_eq.
    destruct (List.find _ _); [exact Hu|].
    unfold stored_user. cbn [snd user_table]. now apply find_app_first.
  - intros post_input j p Hp. cbn [Schema.execute_mutation].
    rewrite snd_bind_ret, create_post_store.
    destruct (stored_user s _); [|exact Hp].
    unfold stored_post. cbn [post_table]. now apply find_app_first.
Qed.

Lemma mutations_frame_witness :
  stored_user
    (snd (Schema.execute_mutation t1 (Schema.createUser carol_input) blog)) 2
  = Some bob /\
  stored_post
    (snd (Schema.execute_mutation
            t1 (Schema.createPost (PostInput.mk "T" "C" 2)) blog)) 1
  = Some first_post.
Proof.
  split.
  - refine (proj1 (proj2 (mutations_frame t1 blog)) carol_input 2 bob _).
    reflexivity.
  - refine (proj2 (proj2 (mutations_frame t1 blog))
              (PostInput.mk "T" "C" 2) 1 first_post _).
    reflexivity.
Defined.

(** ** Writing, then reading *)

(** X15. What a successful mutation returns is what a query then
    reads: after createUser or updateUser returns a user, the user
    query on its id returns that same user; after createPost returns a
    post, the post query on its id returns that same post. *)
Theorem write_then_read (now : datetime) (s : store) :
  (forall user_input r s',
     Mutation.create_user now user_input s = (Ok r, s') ->
     Query.user (UserType.id r) s' = (Ok (Some r), s'))
  /\
  (forall id name email age r s',
     Mutation.update_user id name email age s = (Ok r, s') ->
     UserType.id r = id /\
     Query.user id s' = (Ok (Some r), s'))
  /\
  (forall post_input r s',
     Mutation.create_post now post_input s = (Ok r, s') ->
     Query.post (PostType.id r) s' = (Ok (Some r), s')).
Proof.
  repeat apply conj.
  - intros user_input r s'. rewrite create_user_eq.
    destruct (List.find _ _) eqn:E; [discriminate|]. cbv zeta.
    intros H. injection H as <- <-.
    rewrite user_query_eq. unfold stored_user.
    cbn [user_table user_type UserType.id User.id].
    rewrite (find_app_last _ (user_table s));
      [reflexivity | apply find_user_fresh | apply Z.eqb_refl].
  - intros id name email age r s'. rewrite update_user_eq.
    destruct (stored_user s id) as [u|] eqn:Hu; [|discriminate].
    cbv zeta. destruct (negb _ && _); [discriminate|].
    intros H. injection H as <- <-.
    pose proof (find_key User.id _ _ _ Hu) as Hid.
    split; [exact Hid|]. rewrite user_query_eq.
    now rewrite (stored_user_replace_same s u _ id Hu).
  - intros post_input r s'. rewrite create_post_eq.
    destruct (stored_user s _) as [a|] eqn:Ha; [|discriminate]. cbv zeta.
    intros H. injection H as <- <-.
    rewrite post_query_eq. unfold stored_post, stored_user in *.
    cbn [post_table user_table post_type PostType.id Post.id].
    rewrite (find_app_last _ (post_table s));
      [| apply find_post_fresh | apply Z.eqb_refl].
    cbn [Post.author_id]. now rewrite Ha.
Qed.

Lemma write_then_read_witness :
  Query.user 3 (snd (Mutation.create_user t1 carol_input two_users))
  = (Ok (Some (UserType.mk 3 "Carol" "carol@example.com" (Some 41)
                           "2024-02-01T08:00:05.004200")),
     snd (Mutation.create_user t1 carol_input two_users)).
Proof.
  refine (proj1 (write_then_read t1 two_users) carol_input
            (UserType.mk 3 "Carol" "carol@example.com" (Some 41)
                         "2024-02-01T08:00:05.004200")
            (snd (Mutation.create_user t1 carol_input two_users)) _).
  reflexivity.
Defined.

(** ** Counting rows, undoing a creation, repeating an update *)

Lemma filter_all {A} (f : A -> bool) (l : list A) :
  (forall x, In x l -> f x = true) -> List.filter f l = l.
Proof.
  induction l as [|x l IH]; intros H; [reflexivity|].
  simpl. rewrite (H x) by now left. f_equal. apply IH.
  intros y Hy. apply H. now right.
Qed.

(** In a table whose keys ascend, deleting by key removes one row. *)
Lemma filter_key_length {A} (key : A -> Z) (rows : list A) (r : A) :
  ascending (map key rows) = true -> In r rows ->
  S (length (List.filter (fun x => negb (key x =? key r)) rows))
  = length rows.
Proof.
  induction rows as [|x rows IH]; intros Hasc Hin; [destruct Hin|].
  cbn [map] in Hasc. apply ascending_cons in Hasc as [Hlt Hasc].
  destruct Hin as [->|Hin].
  - simpl. rewrite Z.eqb_refl. cbn [negb]. f_equal. f_equal.
    apply filter_all. intros y Hy.
    apply negb_true_iff, Z.eqb_neq.
    pose proof (Hlt (key y) (in_map key _ _ Hy)). lia.
  - pose proof (Hlt (key r) (in_map key _ _ Hin)) as Hxr.
    simpl. replace (key x =? key r) with false
      by (symmetry; apply Z.eqb_neq; lia).
    cbn [negb length]. f_equal. now apply IH.
Qed.

Lemma fst_bind_ret_ok {A B} (m : Session A) (f : A -> B) (s : store)
      (d : B) :
  fst (bind m (fun v => ret (f v)) s) = Ok d -> exists v, fst (m s) = Ok v.
Proof.
  unfold bind, ret. destruct (m s) as [[a|e] s1]; cbn; [|discriminate].
  intros _. now exists a.
Qed.

(** X16. How a successful mutation changes the number of rows, on a
    store that meets the constraints of the schema: createUser and
    createPost add exactly one row to their table, deleteUser and
    deletePost remove exactly one, updateUser and updatePost keep both
    counts; the other table keeps its count in every case. *)
Theorem row_counts
  (now : datetime) (m : Schema.mutation) (s : store) (d : Schema.data) :
  well_formed s = true ->
  fst (Schema.execute_mutation now m s) = Ok d ->
  let s' := snd (Schema.execute_mutation now m s) in
  let users := length (user_table s) in
  let posts := length (post_table s) in
  let users' := length (user_table s') in
  let posts' := length (post_table s') in
  match m with
  | Schema.createUser _ => users' = S users /\ posts' = posts
  | Schema.deleteUser _ => S users' = users /\ posts' = posts
  | Schema.createPost _ => users' = users /\ posts' = S posts
  | Schema.deletePost _ => users' = users /\ S posts' = posts
  | Schema.updateUser _ _ _ _ => users' = users /\ posts' = posts
  | Schema.updatePost _ _ _ => users' = users /\ posts' = posts
  end.
Proof.
  intros Hwf. pose proof Hwf as Hs.
  apply well_formed_iff in Hs as (Hu & Hp & _ & _).
  destruct m; cbn [Schema.execute_mutation]; cbv zeta;
    rewrite !snd_bind_ret; intros Hok;
    apply fst_bind_ret_ok in Hok as (v & Hok); revert Hok.
  - rewrite create_user_eq. destruct (List.find _ _); [discriminate|].
    intros _. cbn [snd user_table post_table].
    rewrite length_app. cbn [length]. split; [lia | reflexivity].
  - rewrite update_user_eq. destruct (stored_user s id); [|discriminate].
    cbv zeta. destruct (negb _ && _); [discriminate|].
    intros _. cbn [snd user_table post_table]. unfold replace_user.
    rewrite length_map. split; reflexivity.
  - rewrite delete_user_eq.
    destruct (stored_user s id) as [u|] eqn:Hst; [|discriminate].
    destruct (owns_posts s u); [discriminate|].
    intros _. cbn [snd user_table post_table]. split; [|reflexivity].
    apply (filter_key_length User.id); [exact Hu|].
    unfold stored_user in Hst. now apply find_some in Hst as [Hst _].
  - rewrite create_post_eq. destruct (stored_user s _); [|discriminate].
    intros _. cbn [snd user_table post_table].
    rewrite length_app. cbn [length]. split; [reflexivity | lia].
  - rewrite update_post_eq.
    destruct (stored_post s id) as [p|]; [|discriminate].
    cbv zeta. destruct (stored_user s _); [|discriminate].
    intros _. cbn [snd user_table post_table]. unfold replace_post.
    rewrite length_map. split; reflexivity.
  - rewrite delete_post_eq.
    destruct (stored_post s id) as [p|] eqn:Hst; [|discriminate].
    intros _. cbn [snd user_table post_table]. split; [reflexivity|].
    apply (filter_key_length Post.id); [exact Hp|].
    unfold stored_post in Hst. now apply find_some in Hst as [Hst _].
Qed.

Lemma row_counts_witness :
  S (length (user_table
               (snd (Schema.execute_mutation t1 (Schema.deleteUser 2) blog))))
  = length (user_table blog) /\
  length (post_table
            (snd (Schema.execute_mutation t1 (Schema.deleteUser 2) blog)))
  = length (post_table blog).
Proof.
  refine (row_counts t1 (Schema.deleteUser 2) blog (Schema.Boolean true)
            _ _); reflexivity.
Defined.

Lemma filter_drop_last {A} (key : A -> Z) (rows : list A) (x : A) (k : Z) :
  key x = k ->
  (forall r, In r rows -> key r <> k) ->
  List.filter (fun r => negb (key r =? k)) (rows ++ [x]) = rows.
Proof.
  intros Hk H. rewrite List.filter_app. simpl. rewrite Hk, Z.eqb_refl.
  cbn [negb]. rewrite app_nil_r. apply filter_all. intros r Hr.
  apply negb_true_iff, Z.eqb_neq. now apply H.
Qed.

(** X17. Deleting what was just created is an exact undo, and ids are
    given out again.  After a successful createPost, deletePost of the
    new id succeeds and leaves the store exactly as it was before the
    creation; the same holds of createUser and deleteUser on a store
    that meets the constraints of the schema.  Hence whenever a user is
    created, deleted, and another user is created, the second user
    receives the id the first one had. *)
Theorem create_then_delete (now : datetime) (s : store) :
  (forall post_input r s',
     Mutation.create_post now post_input s = (Ok r, s') ->
     Mutation.delete_post (PostType.id r) s' = (Ok true, s))
  /\
  (forall user_input r s',
     well_formed s = true ->
     Mutation.create_user now user_input s = (Ok r, s') ->
     Mutation.delete_user (UserType.id r) s' = (Ok true, s))
  /\
  (forall user_input1 user_input2 now2 r1 r2 s1 s2 s3,
     Mutation.create_user now user_input1 s = (Ok r1, s1) ->
     Mutation.delete_user (UserType.id r1) s1 = (Ok true, s2) ->
     Mutation.create_user now2 user_input2 s2 = (Ok r2, s3) ->
     UserType.id r2 = UserType.id r1).
Proof.
  assert (Hdel : forall user_input r s',
            Mutation.create_user now user_input s = (Ok r, s') ->
            Mutation.delete_user (UserType.id r) s'
            = (if owns_posts s' (User.mk (UserType.id r)
                                         (UserInput.name user_input)
                                         (UserInput.email user_input)
                                         (UserInput.age user_input) now)
               then (Raise (IntegrityError
                              "NOT NULL constraint failed: post.author_id"),
                     s')
               else (Ok true, s)) /\
            UserType.id r = next_rowid (map User.id (user_table s)) /\
            post_table s' = post_table s).
  { intros user_input r s'. rewrite create_user_eq.
    destruct (List.find _ _); [discriminate|]. cbv zeta.
    intros H. injection H as <- <-.
    split; [|split; reflexivity].
    rewrite delete_user_eq. unfold stored_user.
    cbn [user_table post_table user_type UserType.id].
    rewrite (find_app_last _ (user_table s));
      [| apply find_user_fresh | apply Z.eqb_refl].
    cbn [User.id]. destruct (owns_posts _ _); [reflexivity|].
    rewrite (filter_drop_last User.id).
    - now destruct s.
    - reflexivity.
    - intros u Hu Heq. apply (next_rowid_fresh (map User.id (user_table s))).
      rewrite <- Heq. now apply in_map. }
  repeat apply conj.
  - intros post_input r s'. rewrite create_post_eq.
    destruct (stored_user s _); [|discriminate]. cbv zeta.
    intros H. injection H as <- <-.
    rewrite delete_post_eq. unfold stored_post.
    cbn [user_table post_table post_type PostType.id Post.id].
    rewrite (find_app_last _ (post_table s));
      [| apply find_post_fresh | apply Z.eqb_refl].
    cbn [Post.id]. rewrite (filter_drop_last Post.id).
    + now destruct s.
    + reflexivity.
    + intros p Hp Heq. apply (next_rowid_fresh (map Post.id (post_table s))).
      rewrite <- Heq. now apply in_map.
  - intros user_input r s' Hwf Hc.
    destruct (Hdel _ _ _ Hc) as (Hd & Hid & Hposts). rewrite Hd.
    replace (owns_posts s' _) with false; [reflexivity|].
    symmetry. apply not_true_is_false. unfold owns_posts. rewrite Hposts.
    intros Hex. apply existsb_exists in Hex as (p & Hp & Heq).
    cbn [User.id] in Heq. apply Z.eqb_eq in Heq.
    apply well_formed_iff in Hwf as (_ & _ & _ & Hf).
    unfold authors_stored in Hf. rewrite forallb_forall in Hf.
    specialize (Hf p Hp). apply existsb_exists in Hf as (a & Ha & Hau).
    apply Z.eqb_eq in Hau.
    apply (next_rowid_fresh (map User.id (user_table s))).
    rewrite <- Hid, <- Heq, <- Hau. now apply in_map.
  - intros user_input1 user_input2 now2 r1 r2 s1 s2 s3 Hc1 Hd Hc2.
    destruct (Hdel _ _ _ Hc1) as (Hd' & Hid & _). rewrite Hd' in Hd.
    destruct (owns_posts s1 _); [discriminate|].
    injection Hd as <-.
    rewrite create_user_eq in Hc2. destruct (List.find _ _); [discriminate|].
    cbv zeta in Hc2. injection Hc2 as <- _.
    cbn [user_type UserType.id]. now rewrite Hid.
Qed.

Lemma create_then_delete_witness :
  Mutation.delete_post
    2 (snd (Mutation.create_post t1 (PostInput.mk "T" "C" 2) blog))
  = (Ok true, blog) /\
  Mutation.delete_user 3 (snd (Mutation.create_user t1 carol_input blog))
  = (Ok true, blog).
Proof.
  split.
  - refine (proj1 (create_then_delete t1 blog) (PostInput.mk "T" "C" 2)
              (post_type (Post.mk 2 "T" "C" 2 t1) bob)
              (snd (Mutation.create_post t1 (PostInput.mk "T" "C" 2) blog))
              _).
    reflexivity.
  - refine (proj1 (proj2 (create_then_delete t1 blog)) carol_input
              (user_type (User.mk 3 "Carol" "carol@example.com" (Some 41) t1))
              (snd (Mutation.create_user t1 carol_input blog)) _ _);
      reflexivity.
Defined.

Lemma replace_replace {A} (key : A -> Z) (rows : list A) (old new : A) :
  key new = key old ->
  map (fun r => if key r =? key new then new else r)
      (map (fun r => if key r =? key old then new else r) rows)
  = map (fun r => if key r =? key old then new else r) rows.
Proof.
  intros Hk. rewrite map_map. apply map_ext. intros r. rewrite Hk.
  destruct (key r =? key old) eqn:E; [|now rewrite E].
  now rewrite Hk, Z.eqb_refl.
Qed.

Lemma overwrite_user_twice name email age u :
  overwrite_user name email age (overwrite_user name email age u)
  = overwrite_user name email age u.
Proof. destruct name, email, age; reflexivity. Qed.

Lemma overwrite_post_twice title content p :
  overwrite_post title content (overwrite_post title content p)
  = overwrite_post title content p.
Proof. destruct title, content; reflexivity. Qed.

(** X18. The update mutations are idempotent: calling updateUser, or
    updatePost, a second time with the same arguments returns (or
    raises) exactly what the first call did and leaves the store the
    first call left. *)
Theorem updates_are_idempotent (s : store) :
  (forall id name email age,
     Mutation.update_user id name email age
       (snd (Mutation.update_user id name email age s))
     = Mutation.update_user id name email age s)
  /\
  (forall id title content,
     Mutation.update_post id title content
       (snd (Mutation.update_post id title content s))
     = Mutation.update_post id title content s).
Proof.
  split.
  - intros id name email age.
    rewrite (update_user_eq id name email age s).
    destruct (stored_user s id) as [u|] eqn:Hu.
    + cbv zeta. destruct (negb _ && _) eqn:Hc; cbn [snd].
      * rewrite update_user_eq, Hu. cbv zeta. now rewrite Hc.
      * rewrite update_user_eq.
        rewrite (stored_user_replace_same s u _ id Hu) by reflexivity.
        cbv zeta. rewrite overwrite_user_twice, String.eqb_refl.
        cbn [negb andb user_table post_table]. unfold replace_user.
        now rewrite (replace_replace User.id).
    + cbn [snd]. now rewrite update_user_eq, Hu.
  - intros id title content.
    rewrite (update_post_eq id title content s).
    destruct (stored_post s id) as [p|] eqn:Hp.
    + cbv zeta.
      assert (Hagain :
        Mutation.update_post id title content
          (mk_store (user_table s)
             (replace_post p (overwrite_post title content p)
                           (post_table s)))
        = match stored_user s (Post.author_id p) with
          | Some a =>
              (Ok (PostType.mk (Post.id p)
                     (Post.content (overwrite_post title content p))
                     (Post.content (overwrite_post title content p))
                     (isoformat (Post.created_at p)) (user_type a)),
               mk_store (user_table s)
                 (replace_post p (overwrite_post title content p)
                               (post_table s)))
          | None =>
              (Raise (AttributeError
                        "'NoneType' object has no attribute 'id'"),
               mk_store (user_table s)
                 (replace_post p (overwrite_post title content p)
                               (post_table s)))
          end).
      { rewrite update_post_eq.
        rewrite (stored_post_replace_same s p _ id Hp) by reflexivity.
        cbv zeta. rewrite overwrite_post_twice.
        cbn [user_table post_table]. unfold replace_post.
        rewrite (replace_replace Post.id) by reflexivity.
        unfold stored_user. cbn [user_table overwrite_post Post.author_id
                                 Post.id Post.created_at].
        reflexivity. }
      destruct (stored_user s (Post.author_id p)); cbn [snd]; exact Hagain.
    + cbn [snd]. now rewrite update_post_eq, Hp.
Qed.

(** ** Authors and their posts; the order of a listing *)

(** X19. A user who has a post cannot be deleted.  After a successful
    createPost, the author embedded in the returned post is, in every
    field, the stored user the input named (stored before the call and
    still stored after it), and deleteUser of that user raises the
    integrity error of the store and removes nothing. *)
Theorem author_cannot_be_deleted
  (now : datetime) (post_input : PostInput.t) (s : store)
  (r : PostType.t) (s' : store) :
  Mutation.create_post now post_input s = (Ok r, s') ->
  Mutation.delete_user (PostInput.author_id post_input) s'
  = (Raise (IntegrityError "NOT NULL constraint failed: post.author_id"), s')
  /\
  exists a,
    stored_user s (PostInput.author_id post_input) = Some a /\
    stored_user s' (PostInput.author_id post_input) = Some a /\
    User.id a = PostInput.author_id post_input /\
    PostType.author r = user_type a.
Proof.
  intros Hc. pose proof Hc as Hc'. rewrite create_post_eq in Hc'.
  destruct (stored_user s _) as [a|] eqn:Ha; [|discriminate].
  cbv zeta in Hc'. injection Hc' as <- <-.
  pose proof (find_key User.id _ _ _ Ha) as Hid.
  split.
  - rewrite delete_user_eq. unfold stored_user in *. cbn [user_table].
    rewrite Ha. unfold owns_posts. cbn [post_table].
    rewrite existsb_app. cbn [existsb Post.author_id].
    rewrite Hid, Z.eqb_refl, orb_true_r. cbn. reflexivity.
  - exists a. repeat split; [exact Ha | exact Hid].
Qed.

Lemma author_cannot_be_deleted_witness :
  Mutation.delete_user
    2 (snd (Mutation.create_post t1 (PostInput.mk "T" "C" 2) two_users))
  = (Raise (IntegrityError "NOT NULL constraint failed: post.author_id"),
     snd (Mutation.create_post t1 (PostInput.mk "T" "C" 2) two_users))
  /\
  exists a,
    stored_user two_users 2 = Some a /\
    stored_user
      (snd (Mutation.create_post t1 (PostInput.mk "T" "C" 2) two_users)) 2
    = Some a /\
    User.id a = 2 /\
    PostType.author (post_type (Post.mk 1 "T" "C" 2 t1) bob) = user_type a.
Proof.
  refine (author_cannot_be_deleted
            t1 (PostInput.mk "T" "C" 2) two_users
            (post_type (Post.mk 1 "T" "C" 2 t1) bob)
            (snd (Mutation.create_post
                    t1 (PostInput.mk "T" "C" 2) two_users)) _).
  reflexivity.
Defined.

(** X20. New rows are listed last.  After a successful createUser the
    full users listing is the listing before it followed by the user
    just returned, in main.py and in resolvers.py. *)
Theorem created_user_is_listed_last
  (impl : option Z -> option Z -> Session (list UserType.t))
  (now : datetime) (user_input : UserInput.t) (s : store)
  (r : UserType.t) (s' : store) :
  In impl users_impls ->
  Mutation.create_user now user_input s = (Ok r, s') ->
  exists before,
    impl None None s = (Ok before, s) /\
    impl None None s' = (Ok (before ++ [r]), s').
Proof.
  intros Himpl Hc. apply users_impls_eq in Himpl as ->.
  rewrite create_user_eq in Hc. destruct (List.find _ _); [discriminate|].
  cbv zeta in Hc. injection Hc as <- <-.
  eexists. split; [apply users_query_eq|].
  rewrite users_query_eq. unfold offset_limit. cbn [user_table].
  now rewrite map_app.
Qed.

Lemma created_user_is_listed_last_witness :
  exists before,
    UserResolver.users None None two_users = (Ok before, two_users) /\
    UserResolver.users None None
      (snd (Mutation.create_user t1 carol_input two_users))
    = (Ok (before ++
           [UserType.mk 3 "Carol" "carol@example.com" (Some 41)
                        "2024-02-01T08:00:05.004200"]),
       snd (Mutation.create_user t1 carol_input two_users)).
Proof.
  refine (created_user_is_listed_last
            UserResolver.users t1 carol_input two_users _ _ _ _).
  - simpl. auto.
  - reflexivity.
Defined.
